(** * The example programs of the blog's C++ articles

    A shallow embedding of the code that accompanies the "Modern C++"
    (RAII) and "smart pointers" articles:

    - modern-cpp: the three file-descriptor wrappers [NaiveFile],
      [SafeFile] and [FileWrapper], the template [accidental_copy] and
      the [main] that runs the three demonstrations;
    - smart-ptr: [count_bad], [count_good], the [mutate] family, the
      [ConfigWatcher] class and their [main].

    The C++ objects live in explicit stores, so that copies of a wrapper,
    references to the same object and copies of a [shared_ptr] alias the
    way they do in the program.  The operating system (open, close, read,
    errno) and the C library's output streams are part of the state that
    the functions thread. *)

From Stdlib Require Import ZArith String Ascii List Bool Lia DecimalString.
Import ListNotations.

Local Open Scope Z_scope.

(** ** C integers and strings *)

Module CInt.

Definition INT_MIN : Z := - 2 ^ 31.
Definition INT_MAX : Z := 2 ^ 31 - 1.

(** The value an [int] holds after an arithmetic result [z]: two's
    complement wrap-around to 32 bits (what the compilers the articles use
    generate; the C++ standard leaves signed overflow undefined). *)
Definition int_wrap (z : Z) : Z := (z + 2 ^ 31) mod 2 ^ 32 - 2 ^ 31.

Definition is_int (z : Z) : Prop := INT_MIN <= z <= INT_MAX.

End CInt.

Module CStr.

(** [std::string]: a sequence of bytes. *)
Definition std_string : Type := list ascii.

(** A string literal converted to [std::string]. *)
Definition lit (s : string) : std_string := list_ascii_of_string s.

Definition NUL : ascii := Ascii.zero.

(** What [printf]'s [%s] prints of [s.c_str()]: the bytes before the first
    NUL. *)
Fixpoint until_nul (s : std_string) : std_string :=
  match s with
  | [] => []
  | c :: s' => if Ascii.eqb c NUL then [] else c :: until_nul s'
  end.

Definition c_str (s : std_string) : string := string_of_list_ascii (until_nul s).

(** [%i] and [%zu]. *)
Definition fmt_i (z : Z) : string := NilZero.string_of_int (Z.to_int z).
Definition fmt_zu (n : nat) : string := NilZero.string_of_uint (Nat.to_uint n).

(** The newline character of the format strings. *)
Definition nl : string := String (ascii_of_nat 10) EmptyString.

End CStr.

(** ** The operating system the wrappers call *)

Module Posix.

Definition ENOENT : Z := 2.
Definition EBADF : Z := 9.

(** An open file: the bytes of the file and the read offset. *)
Record open_file : Type := mk_open_file { of_data : list ascii; of_pos : nat }.

(** The process as the kernel and the C library see it: the files that
    exist, the descriptor table and [errno]. *)
Record os_state : Type := mk_os {
  fs : list (string * list ascii);
  fdt : list (Z * open_file);
  errno : Z
}.

Definition file_at (path : string) (files : list (string * list ascii))
  : option (list ascii) :=
  match find (fun e => String.eqb (fst e) path) files with
  | Some e => Some (snd e)
  | None => None
  end.

Definition fd_lookup (fd : Z) (t : list (Z * open_file)) : option open_file :=
  match find (fun e => fst e =? fd) t with
  | Some e => Some (snd e)
  | None => None
  end.

Definition fd_remove (fd : Z) (t : list (Z * open_file)) : list (Z * open_file) :=
  filter (fun e => negb (fst e =? fd)) t.

(** The lowest descriptor number that is not in use, as POSIX requires of
    [open]. *)
Fixpoint first_free (fuel : nat) (n : Z) (t : list (Z * open_file)) : Z :=
  match fuel with
  | O => n
  | S fuel' =>
      if existsb (fun e => fst e =? n) t then first_free fuel' (n + 1) t else n
  end.

Definition lowest_free (t : list (Z * open_file)) : Z := first_free (length t) 0 t.

(** [open(path, O_RDONLY)]: the new descriptor, or -1 with [errno] set. *)
Definition sys_open (path : string) (o : os_state) : Z * os_state :=
  match file_at path (fs o) with
  | Some data =>
      let fd := lowest_free (fdt o) in
      (fd, mk_os (fs o) ((fd, mk_open_file data 0) :: fdt o) (errno o))
  | None => (-1, mk_os (fs o) (fdt o) ENOENT)
  end.

(** [close(fd)]: 0, or -1 with [errno = EBADF] when [fd] is not open. *)
Definition sys_close (fd : Z) (o : os_state) : Z * os_state :=
  match fd_lookup fd (fdt o) with
  | Some _ => (0, mk_os (fs o) (fd_remove fd (fdt o)) (errno o))
  | None => (-1, mk_os (fs o) (fdt o) EBADF)
  end.

(** [read(fd, buf, count)]: the number of bytes read and the bytes stored
    at the start of [buf], or -1 with [errno = EBADF]. *)
Definition sys_read (fd : Z) (count : nat) (o : os_state)
  : Z * list ascii * os_state :=
  match fd_lookup fd (fdt o) with
  | Some f =>
      let chunk := firstn count (skipn (of_pos f) (of_data f)) in
      let f' := mk_open_file (of_data f) (of_pos f + length chunk)%nat in
      (Z.of_nat (length chunk), chunk,
       mk_os (fs o) ((fd, f') :: fd_remove fd (fdt o)) (errno o))
  | None => (-1, [], mk_os (fs o) (fdt o) EBADF)
  end.

(** [strerror]. *)
Definition strerror (e : Z) : string :=
  if e =? EBADF then "Bad file descriptor"%string
  else if e =? ENOENT then "No such file or directory"%string
  else ("Unknown error " ++ CStr.fmt_i e)%string.

End Posix.

(** ** The state of a running example *)

Module World.
Import Posix.

Inductive stream : Type := Stdout | Stderr.

(** A system call the program made, with its result. *)
Inductive syscall : Type :=
| SysOpen (path : string) (ret : Z)
| SysRead (fd : Z) (count : nat) (ret : Z)
| SysClose (fd : Z) (ret : Z).

(** The operating system, what was written to the terminal (oldest
    first) and the system calls made so far (oldest first).  Every
    [printf] of the examples ends its line, and the standard output of a
    terminal is line buffered, so the two streams reach the terminal in
    the order of the calls. *)
Record world : Type := mk_world {
  os : os_state;
  console : list (stream * string);
  calls : list syscall
}.

Definition printf (text : string) (w : world) : world :=
  mk_world (os w) (console w ++ [(Stdout, text)]) (calls w).

Definition eprintf (text : string) (w : world) : world :=
  mk_world (os w) (console w ++ [(Stderr, text)]) (calls w).

Definition open (path : string) (w : world) : Z * world :=
  let '(r, o) := sys_open path (os w) in
  (r, mk_world o (console w) (calls w ++ [SysOpen path r])).

Definition close (fd : Z) (w : world) : Z * world :=
  let '(r, o) := sys_close fd (os w) in
  (r, mk_world o (console w) (calls w ++ [SysClose fd r])).

(** [::read(fd, buf, count)] on a buffer [buf]: the bytes read replace the
    start of the buffer. *)
Definition read (fd : Z) (buf : list ascii) (count : nat) (w : world)
  : Z * list ascii * world :=
  let '(r, chunk, o) := sys_read fd count (os w) in
  (r, chunk ++ skipn (length chunk) buf,
   mk_world o (console w) (calls w ++ [SysRead fd count r])).

(** Everything written to one stream, in order. *)
Definition written (s : stream) (w : world) : list string :=
  map snd (filter (fun e => match fst e, s with
                            | Stdout, Stdout | Stderr, Stderr => true
                            | _, _ => false
                            end) (console w)).

(** The text on the terminal. *)
Definition terminal (w : world) : string :=
  fold_right String.append EmptyString (map snd (console w)).

(** The calls and the output added between the worlds [w] and [w']. *)
Definition calls_since (w w' : world) : list syscall :=
  skipn (length (calls w)) (calls w').

Definition console_since (w w' : world) : list (stream * string) :=
  skipn (length (console w)) (console w').

End World.

(** ** modern-cpp: the three wrappers

    Each class has the single data member [int fd]; an object is
    represented by the value of that member.  The member functions take it
    as their first argument and thread the [world]. *)

Module NaiveFile.
Import CInt CStr Posix World.
Local Open Scope string_scope.

(** [NaiveFile::NaiveFile(const std::string &path)] *)
Definition ctor (path : std_string) (w : world) : Z * world :=
  let '(fd, w1) := open (c_str path) w in
  (fd, printf ("(fd " ++ fmt_i fd ++ ") open " ++ c_str path ++ nl) w1).

(** The copy constructor and the copy assignment the compiler generates:
    the member is copied. *)
Definition copy (other : Z) : Z := other.

(** [NaiveFile::~NaiveFile()] *)
Definition dtor (fd : Z) (w : world) : world :=
  if (fd >=? 0)%Z then
    let w1 := printf ("(fd " ++ fmt_i fd ++ ") ~NaiveFile closing" ++ nl) w in
    let '(r, w2) := close fd w1 in
    if (r <? 0)%Z then
      eprintf ("  (fd " ++ fmt_i fd ++ ") Couldn't close file: '"
               ++ strerror (errno (os w2)) ++ "'" ++ nl) w2
    else w2
  else w.

(** [std::string NaiveFile::read_1024() const] *)
Definition read_1024 (fd : Z) (w : world) : std_string * world :=
  if (fd <? 0)%Z then ([], w)
  else
    let nbytes := 1024%nat in
    let buf := repeat NUL nbytes in
    let '(r, buf', w1) := read fd buf nbytes w in
    let n := int_wrap r in
    if (n <=? 0)%Z then ([], w1) else (firstn (Z.to_nat n) buf', w1).

End NaiveFile.

Module SafeFile.
Import CInt CStr Posix World.
Local Open Scope string_scope.

(** [SafeFile::SafeFile(const std::string &path)]; the copy operations
    are deleted, so there is no [copy]. *)
Definition ctor (path : std_string) (w : world) : Z * world :=
  open (c_str path) w.

(** [SafeFile::~SafeFile()] *)
Definition dtor (fd : Z) (w : world) : world :=
  if (fd >=? 0)%Z then
    let w1 := printf ("~SafeFile closing file" ++ nl) w in
    let '(r, w2) := close fd w1 in
    if (r <? 0)%Z then
      eprintf ("  Couldn't close file: '" ++ strerror (errno (os w2)) ++ "'" ++ nl) w2
    else w2
  else w.

(** [std::string SafeFile::read_1024() const] *)
Definition read_1024 (fd : Z) (w : world) : std_string * world :=
  if (fd <? 0)%Z then ([], w)
  else
    let nbytes := 1024%nat in
    let buf := repeat NUL nbytes in
    let '(r, buf', w1) := read fd buf nbytes w in
    let n := int_wrap r in
    if (n <=? 0)%Z then ([], w1) else (firstn (Z.to_nat n) buf', w1).

End SafeFile.

(** The automatic objects of a scope: each live wrapper object, by the
    name of its variable, with its [fd] member; the most recently
    constructed first.  Two names are two objects; a member function that
    takes references may be given the same name twice. *)
Module Store.

Definition var : Type := string.
Definition store : Type := list (var * Z).

Fixpoint get (x : var) (st : store) : option Z :=
  match st with
  | [] => None
  | (y, v) :: st' => if String.eqb x y then Some v else get x st'
  end.

Fixpoint set (x : var) (v : Z) (st : store) : store :=
  match st with
  | [] => []
  | (y, u) :: st' =>
      if String.eqb x y then (y, v) :: st' else (y, u) :: set x v st'
  end.

Fixpoint remove (x : var) (st : store) : store :=
  match st with
  | [] => []
  | (y, u) :: st' => if String.eqb x y then st' else (y, u) :: remove x st'
  end.

End Store.

Module FileWrapper.
Import CInt CStr Posix World Store.
Local Open Scope string_scope.

(** [FileWrapper::FileWrapper(const std::string &path)]; the default
    member initialiser [int fd{-1}] is overwritten by the assignment. *)
Definition ctor (path : std_string) (w : world) : Z * world :=
  open (c_str path) w.

(** [FileWrapper::FileWrapper(FileWrapper &&wrapper) : fd(wrapper.fd)]:
    the object [this] is created from the object [wrapper], which is then
    written to. *)
Definition move_ctor (this wrapper : var) (st : store) : store :=
  match get wrapper st with
  | Some v => set wrapper (-1) ((this, v) :: st)
  | None => st
  end.

(** [void FileWrapper::operator=(FileWrapper &&wrapper)]: two writes,
    through [this] and through the reference [wrapper]. *)
Definition move_assign (this wrapper : var) (st : store) : store :=
  match get wrapper st with
  | Some v => set wrapper (-1) (set this v st)
  | None => st
  end.

(** [FileWrapper::~FileWrapper()] *)
Definition dtor (fd : Z) (w : world) : world :=
  if (fd >=? 0)%Z then
    let '(r, w1) := close fd w in
    if (r <? 0)%Z then
      eprintf ("  Couldn't close file: '" ++ strerror (errno (os w1)) ++ "'" ++ nl) w1
    else w1
  else w.

(** [std::string FileWrapper::read_1024() const] *)
Definition read_1024 (fd : Z) (w : world) : std_string * world :=
  if (fd <? 0)%Z then ([], w)
  else
    let nbytes := 1024%nat in
    let buf := repeat NUL nbytes in
    let '(r, buf', w1) := read fd buf nbytes w in
    let n := int_wrap r in
    if (n <=? 0)%Z then ([], w1) else (firstn (Z.to_nat n) buf', w1).

End FileWrapper.

(** ** modern-cpp: [main] *)

Module Main.
Import CInt CStr Posix World Store.
Local Open Scope string_scope.

(** The body of [template <typename T> void accidental_copy(T file)],
    given [T::read_1024] and the parameter object. *)
Definition accidental_copy (read_1024 : Z -> world -> std_string * world)
    (file : Z) (w : world) : world :=
  let '(content, w1) := read_1024 file w in
  if (1024 <=? length content)%nat then
    printf ("File is bigger than 1KB" ++ nl) w1
  else
    printf ("File is " ++ fmt_zu (length content) ++ " bytes long" ++ nl) w1.

(** A point of the execution: the live wrapper objects and the world. *)
Definition state : Type := store * world.

(** The steps a block is made of. *)
Definition say (text : string) (s : state) : state :=
  (fst s, printf text (snd s)).

Definition construct (x : var) (ctor : world -> Z * world) (s : state) : state :=
  let '(v, w) := ctor (snd s) in ((x, v) :: fst s, w).

Definition copy_construct (x src : var) (copy : Z -> Z) (s : state) : state :=
  match get src (fst s) with
  | Some v => ((x, copy v) :: fst s, snd s)
  | None => s
  end.

Definition call_on (x : var) (f : Z -> world -> world) (s : state) : state :=
  match get x (fst s) with
  | Some v => (fst s, f v (snd s))
  | None => s
  end.

Definition destroy (x : var) (dtor : Z -> world -> world) (s : state) : state :=
  match get x (fst s) with
  | Some v => (remove x (fst s), dtor v (snd s))
  | None => s
  end.

Definition program : Type := list (state -> state).

(** The first block of [main].  [NaiveFile naive_file =
    NaiveFile(filename)] constructs [naive_file] in place (the temporary
    is elided, as the article's trace shows).  The parameter of
    [accidental_copy] is the object [file], copied from [naive_file] and
    destroyed when the call returns; [auto file2 = naive_file] copies
    once more; [file2] and [naive_file] are destroyed at the closing
    brace, in the reverse order of their construction. *)
Definition naive_demo (filename : std_string) : program :=
  [ say ("Naive file wrapper" ++ nl);
    construct "naive_file" (NaiveFile.ctor filename);
    copy_construct "file" "naive_file" NaiveFile.copy;
    call_on "file" (accidental_copy NaiveFile.read_1024);
    destroy "file" NaiveFile.dtor;
    copy_construct "file2" "naive_file" NaiveFile.copy;
    destroy "file2" NaiveFile.dtor;
    destroy "naive_file" NaiveFile.dtor;
    say (nl ++ nl) ].

Definition safe_demo (filename : std_string) : program :=
  [ say ("Safe file wrapper" ++ nl);
    construct "safe_file" (SafeFile.ctor filename);
    destroy "safe_file" SafeFile.dtor;
    say (nl ++ nl) ].

Definition final_demo (filename : std_string) : program :=
  [ say ("File file wrapper" ++ nl);
    construct "file" (FileWrapper.ctor filename);
    destroy "file" FileWrapper.dtor;
    say (nl ++ nl) ].

(** [int main()], with [filename] the expansion of [__FILE__]. *)
Definition main (filename : std_string) : program :=
  (naive_demo filename ++ safe_demo filename ++ final_demo filename)%list.

Definition run (p : program) (s : state) : state :=
  fold_left (fun s step => step s) p s.

(** Every point the execution of [p] goes through, the first and the last
    included. *)
Fixpoint points (p : program) (s : state) : list state :=
  s :: match p with
       | [] => []
       | step :: p' => points p' (step s)
       end.

(** The [fd] members of the live objects that hold an open-looking
    descriptor. *)
Definition held (s : state) : list Z :=
  filter (fun v => (v >=? 0)%Z) (map snd (fst s)).

(** No two live objects hold the same descriptor [>= 0]. *)
Fixpoint distinct (l : list Z) : bool :=
  match l with
  | [] => true
  | v :: l' => negb (existsb (Z.eqb v) l') && distinct l'
  end.

Definition single_owner (s : state) : bool := distinct (held s).

(** For each successful [open] of a trace, in order: the descriptor it
    returned and how many times [close] was called on that descriptor
    before an [open] returned the same number again. *)
Fixpoint closes_of (fd : Z) (tr : list syscall) : nat :=
  match tr with
  | [] => 0
  | SysOpen _ r :: tr' => if (r =? fd)%Z then 0 else closes_of fd tr'
  | SysClose f _ :: tr' => ((if (f =? fd)%Z then 1 else 0) + closes_of fd tr')%nat
  | SysRead _ _ _ :: tr' => closes_of fd tr'
  end.

Fixpoint close_counts (tr : list syscall) : list (Z * nat) :=
  match tr with
  | [] => []
  | SysOpen _ r :: tr' =>
      if (r >=? 0)%Z then (r, closes_of r tr') :: close_counts tr'
      else close_counts tr'
  | _ :: tr' => close_counts tr'
  end.

Definition closed_exactly_once (tr : list syscall) : bool :=
  forallb (fun e => Nat.eqb (snd e) 1) (close_counts tr).

(** The arguments of the [close] calls of a trace. *)
Fixpoint closed_fds (tr : list syscall) : list Z :=
  match tr with
  | [] => []
  | SysClose f _ :: tr' => f :: closed_fds tr'
  | _ :: tr' => closed_fds tr'
  end.

(** A process started from a terminal, with descriptors 0, 1 and 2 open,
    in a directory that holds the files [files]. *)
Definition boot (files : list (string * list ascii)) : state :=
  ([], mk_world
         (mk_os files
                [(0%Z, mk_open_file [] 0); (1%Z, mk_open_file [] 0);
                 (2%Z, mk_open_file [] 0)]
                0%Z)
         [] []).

End Main.

(** ** smart-ptr: the heap and its pointers

    A [shared_ptr<T>], a [unique_ptr<T>] and a reference [const T &] are
    all the address of an object in the heap: copying a pointer copies
    the address, and every holder of the address sees the same object.
    (The reference counts are not represented: no object of the examples
    is released before [main] returns.)  Dereferencing an address that
    holds no object has no result. *)

Module Mem.
Import CStr.

Definition ptr : Type := nat.

Record Config : Type := mk_config {
  hostname : std_string;
  port : Z;
  url : std_string
}.

(** The [std::string] objects, the [Config] objects and the text printed
    so far. *)
Record mem : Type := mk_mem {
  strings : list std_string;
  configs : list Config;
  out : list string
}.

(** Computations on the memory that may have no result. *)
Definition M (A : Type) : Type := mem -> option (A * mem).

Definition ret {A : Type} (a : A) : M A := fun m => Some (a, m).

Definition bind {A B : Type} (c : M A) (k : A -> M B) : M B :=
  fun m => match c m with
           | Some (a, m') => k a m'
           | None => None
           end.

Definition fail {A : Type} : M A := fun _ => None.

(** [l[i] := v], nothing when [i] is out of range. *)
Fixpoint set_at {A : Type} (i : nat) (v : A) (l : list A) : list A :=
  match l, i with
  | [], _ => []
  | _ :: l', O => v :: l'
  | x :: l', S i' => x :: set_at i' v l'
  end.

(** [std::make_shared<std::string>(s)] *)
Definition make_shared_string (s : std_string) : M ptr :=
  fun m => Some (length (strings m),
                 mk_mem (strings m ++ [s]) (configs m) (out m)).

(** [*p] read, for a pointer to a string. *)
Definition load_string (p : ptr) : M std_string :=
  fun m => match nth_error (strings m) p with
           | Some s => Some (s, m)
           | None => None
           end.

(** [*p = s] *)
Definition store_string (p : ptr) (s : std_string) : M unit :=
  fun m => match nth_error (strings m) p with
           | Some _ => Some (tt, mk_mem (set_at p s (strings m)) (configs m) (out m))
           | None => None
           end.

(** [std::make_shared<Config>(c)] *)
Definition make_shared_config (c : Config) : M ptr :=
  fun m => Some (length (configs m),
                 mk_mem (strings m) (configs m ++ [c]) (out m)).

Definition load_config (p : ptr) : M Config :=
  fun m => match nth_error (configs m) p with
           | Some c => Some (c, m)
           | None => None
           end.

Definition store_config (p : ptr) (c : Config) : M unit :=
  fun m => match nth_error (configs m) p with
           | Some _ => Some (tt, mk_mem (strings m) (set_at p c (configs m)) (out m))
           | None => None
           end.

Definition printf (text : string) : M unit :=
  fun m => Some (tt, mk_mem (strings m) (configs m) (out m ++ [text])).

Definition empty : mem := mk_mem [] [] [].

End Mem.

Declare Scope mem_scope.
Delimit Scope mem_scope with mem.
Notation "x <- c ;; k" := (Mem.bind c (fun x => k))
  (at level 61, c at next level, right associativity) : mem_scope.
Notation "c ;;; k" := (Mem.bind c (fun _ => k))
  (at level 61, right associativity) : mem_scope.

(** ** smart-ptr: mutation.hpp *)

Module Mutation.
Import CInt CStr Mem.
Local Open Scope mem_scope.




(** The loop of [count_bad], from the iterator position [it] on: each
    round reads the string behind [s] again, as the iterator does, and
    stops when [it == s->end()].  The fuel bounds the number of rounds. *)
Fixpoint count_bad_loop (fuel : nat) (s : ptr) (d : ascii) (it : nat) (count : Z)
  : M Z :=
  match fuel with
  | O => fail
  | S fuel' =>
      str <- load_string s ;;
      if Nat.eqb it (length str) then ret count
      else
        match nth_error str it with
        | None => fail
        | Some c =>
            if Ascii.eqb c d then
              store_string s (set_at it "*"%char str) ;;;
              count_bad_loop fuel' s d (S it) (int_wrap (count + 1))
            else count_bad_loop fuel' s d (S it) count
        end
  end.

(** [int count_bad(const std::shared_ptr<std::string> &s, char d)] *)
Definition count_bad (s : ptr) (d : ascii) : M Z :=
  str <- load_string s ;;
  count_bad_loop (S (length str)) s d 0 0.

Fixpoint count_good_loop (fuel : nat) (s : ptr) (d : ascii) (it : nat) (count : Z)
  : M Z :=
  match fuel with
  | O => fail
  | S fuel' =>
      str <- load_string s ;;
      if Nat.eqb it (length str) then ret count
      else
        match nth_error str it with
        | None => fail
        | Some c =>
            if Ascii.eqb c d then
              count_good_loop fuel' s d (S it) (int_wrap (count + 1))
            else count_good_loop fuel' s d (S it) count
        end
  end.

(** [int count_good(const std::string &s, char d)], the reference being
    the address of the string. *)
Definition count_good (s : ptr) (d : ascii) : M Z :=
  str <- load_string s ;;
  count_good_loop (S (length str)) s d 0 0.

End Mutation.

(** ** smart-ptr: interfaces.hpp *)

Module Interfaces.
Import CInt CStr Mem.
Local Open Scope mem_scope.

(** [class ConfigWatcher]: its member [std::shared_ptr<Config> config]. *)
Record ConfigWatcher : Type := mk_watcher { config : ptr }.

(** [ConfigWatcher::ConfigWatcher()] *)
Definition ctor : M ConfigWatcher :=
  p <- make_shared_config (mk_config (lit "localhost") 80 (lit "/index.html")) ;;
  ret (mk_watcher p).

(** [std::shared_ptr<const Config> get_config()] *)
Definition get_config (this : ConfigWatcher) : M ptr :=
  ret (config this).

(** [void update_config()]: [config->port += 1]. *)
Definition update_config (this : ConfigWatcher) : M unit :=
  c <- load_config (config this) ;;
  store_config (config this)
    (mk_config (hostname c) (int_wrap (port c + 1)) (url c)).

End Interfaces.

(** ** smart-ptr: [main] *)

Module SmartMain.
Import CInt CStr Mem Mutation Interfaces.
Local Open Scope mem_scope.
Local Open Scope string_scope.

(** [void mutation()] *)
Definition mutation : M unit :=
  shared <- make_shared_string (lit "Hello shared world!") ;;
  printf ("Good count" ++ nl) ;;;
  good <- count_good shared "l"%char ;;
  s1 <- load_string shared ;;
  printf ("'" ++ c_str s1 ++ "' contains " ++ fmt_i good ++ " 'l's." ++ nl ++ nl) ;;;
  printf ("Bad count" ++ nl) ;;;
  bad <- count_bad shared "l"%char ;;
  s2 <- load_string shared ;;
  printf ("'" ++ c_str s2 ++ "' contains " ++ fmt_i bad ++ " 'l's." ++ nl ++ nl).

(** [int main()] *)
Definition main : M unit :=
  mutation ;;;
  watcher <- Interfaces.ctor ;;
  config <- get_config watcher ;;
  c1 <- load_config config ;;
  printf ("Port " ++ fmt_i (port c1) ++ " is configured" ++ nl) ;;;
  update_config watcher ;;;
  c2 <- load_config config ;;
  printf ("Port " ++ fmt_i (port c2) ++ " is configured" ++ nl).

Definition stdout_text (m : mem) : string :=
  fold_right String.append EmptyString (out m).

End SmartMain.


(** ** What the properties below are stated with *)

Module Props.
Import CInt CStr Posix World Store.
Local Open Scope string_scope.

(** The number of occurrences of [d] in [s]. *)
Definition occurrences (d : ascii) (s : std_string) : nat :=
  count_occ ascii_dec s d.

(** [s] with every occurrence of [d] replaced by a star. *)
Definition starred (d : ascii) (s : std_string) : std_string :=
  map (fun c => if Ascii.eqb c d then "*"%char else c) s.



(** The message a destructor prints when [close] fails and leaves [e] in
    [errno]: the one of [SafeFile] and [FileWrapper], and the one of
    [NaiveFile], which names the descriptor. *)
Definition close_failure (e : Z) : string :=
  "  Couldn't close file: '" ++ strerror e ++ "'" ++ nl.

Definition naive_close_failure (fd : Z) (e : Z) : string :=
  "  (fd " ++ fmt_i fd ++ ") Couldn't close file: '" ++ strerror e ++ "'" ++ nl.

(** What a destructor does to the world: [banner] is what it prints
    before it calls [close] and [failure] the message for a failed
    [close], given [errno]. *)
Definition dtor_effect (banner : list (stream * string)) (failure : Z -> string)
    (fd : Z) (w : world) : world :=
  if (fd >=? 0)%Z then
    let r := fst (sys_close fd (os w)) in
    let o := snd (sys_close fd (os w)) in
    mk_world o
      ((console w ++ banner ++
         (if (r <? 0)%Z then [(Stderr, failure (errno o))] else []))%list)
      (calls w ++ [SysClose fd r])%list
  else w.

(** What is asked of a [read_1024] member function [R] on a wrapper that
    holds [fd], in the world [w]: at most 1024 characters; the empty
    string, and nothing done, when [fd < 0]; otherwise [read] is called
    once for 1024 bytes, and the result is empty when its return value [r]
    is zero or negative, and the [r] bytes that [read] delivered when
    [r > 0]. *)
Definition read_1024_contract (R : Z -> world -> std_string * world)
    (fd : Z) (w : world) : Prop :=
  (length (fst (R fd w)) <= 1024)%nat /\
  ((fd < 0)%Z -> R fd w = ([], w)) /\
  ((0 <= fd)%Z ->
     let '(r, delivered, o) := sys_read fd 1024 (os w) in
     snd (R fd w) = mk_world o (console w) (calls w ++ [SysRead fd 1024 r])%list /\
     ((r <= 0)%Z -> fst (R fd w) = []) /\
     ((0 < r)%Z ->
        fst (R fd w) = firstn (Z.to_nat r) delivered /\
        length (fst (R fd w)) = Z.to_nat r)).



(** The lines that the member functions of [NaiveFile] print during the
    first block of [main], for a descriptor [fd] and a file name [path]:
    the trace that the article shows. *)
Definition naive_trace (fd : Z) (path : string) : list (stream * string) :=
  [ (Stdout, "(fd " ++ fmt_i fd ++ ") open " ++ path ++ nl);
    (Stdout, "(fd " ++ fmt_i fd ++ ") ~NaiveFile closing" ++ nl);
    (Stdout, "(fd " ++ fmt_i fd ++ ") ~NaiveFile closing" ++ nl);
    (Stderr, "  (fd " ++ fmt_i fd ++ ") Couldn't close file: 'Bad file descriptor'" ++ nl);
    (Stdout, "(fd " ++ fmt_i fd ++ ") ~NaiveFile closing" ++ nl);
    (Stderr, "  (fd " ++ fmt_i fd ++ ") Couldn't close file: 'Bad file descriptor'" ++ nl) ].

(** The output block of the article (modern-cpp/README.md), line by
    line. *)
Definition readme_trace : string :=
  "(fd 3) open main.cpp" ++ nl ++
  "(fd 3) ~NaiveFile closing" ++ nl ++
  "(fd 3) ~NaiveFile closing" ++ nl ++
  "  (fd 3) Couldn't close file: 'Bad file descriptor'" ++ nl ++
  "(fd 3) ~NaiveFile closing" ++ nl ++
  "  (fd 3) Couldn't close file: 'Bad file descriptor'" ++ nl.

(** The line that [accidental_copy] prints for a file of [n] bytes that
    was just opened. *)
Definition size_line (n : nat) : string :=
  if (1024 <=? n)%nat then "File is bigger than 1KB" ++ nl
  else "File is " ++ fmt_zu n ++ " bytes long" ++ nl.

Definition text_of (l : list (stream * string)) : string :=
  fold_right String.append EmptyString (map snd l).

(** What the first block of [main] writes to the terminal when [open]
    succeeds with [fd] on a file of [n] bytes or, with [n = 1024], more:
    the trace of the article and, besides, the line that names the
    block, the line of [accidental_copy] after the line of the
    constructor, and the two line ends that close the block. *)
Definition naive_demo_output (fd : Z) (path : string) (n : nat)
  : list (stream * string) :=
  match naive_trace fd path with
  | opened :: destructors =>
      (Stdout, "Naive file wrapper" ++ nl) :: opened ::
      (Stdout, size_line n) :: (destructors ++ [(Stdout, (nl ++ nl)%string)])%list
  | [] => []
  end.

(** A source file for the examples to open. *)
Definition demo_source : list ascii := lit "int main() { return 0; }".

(** A move operation [op this wrapper] transfers the descriptor: the
    destination ends with the descriptor [v] that the source had, the
    source ends with -1, and destroying the source afterwards does not
    close [v]. *)
Definition transfers (op : var -> var -> store -> store)
    (this wrapper : var) (st : store) : Prop :=
  forall v, get wrapper st = Some v ->
    get this (op this wrapper st) = Some v /\
    get wrapper (op this wrapper st) = Some (-1)%Z /\
    forall w,
      ~ In v (Main.closed_fds
                (calls_since w
                   (snd (Main.destroy wrapper FileWrapper.dtor
                           (op this wrapper st, w))))).

End Props.

(** ** The build-process article: add.c and simple.c *)

Module BuildProcess.
Import CInt CStr.
Local Open Scope string_scope.

(** [int add(int a, int b)] *)
Definition add (a b : Z) : Z := int_wrap (a + b).

(** [int sub(int a, int b)] *)
Definition sub (a b : Z) : Z := int_wrap (a - b).

(** [main] of simple.c: what it prints and what it returns. *)
Definition main : string * Z :=
  (fmt_i (sub (add 5 6) 6) ++ nl, 0%Z).

End BuildProcess.

(** ** Uses of the classes that the further properties are about *)

Module Scenarios.
Import CInt CStr Posix World Store Main Mem.

(** A whole life of one wrapper object: constructed on [path], read
    once, destroyed.  The result is what [read_1024] returned. *)
Definition lifetime
    (ctor : std_string -> world -> Z * world)
    (read_1024 : Z -> world -> std_string * world)
    (dtor : Z -> world -> world)
    (path : std_string) (w : world) : std_string * world :=
  let '(fd, w1) := ctor path w in
  let '(content, w2) := read_1024 fd w1 in
  (content, dtor fd w2).

(** The first block of [main] up to the return of [accidental_copy]:
    [naive_file] is alive, the parameter object is destroyed. *)
Definition until_copy_returned (filename : std_string) : program :=
  firstn 5 (naive_demo filename).

(** The results of the [open] calls of a trace. *)
Fixpoint open_results (tr : list syscall) : list Z :=
  match tr with
  | [] => []
  | SysOpen _ r :: tr' => r :: open_results tr'
  | _ :: tr' => open_results tr'
  end.

(** The computation [c] run [n] times in a row. *)
Fixpoint times (n : nat) (c : M unit) : M unit :=
  match n with
  | O => ret tt
  | S n' => bind c (fun _ => times n' c)
  end.

(** Worlds and memories to try the properties on: a process in a
    directory that holds [main.cpp]; one with descriptor 3 open on [data]
    at its start; one with descriptors 3 and 4 open; a file of exactly
    1024 bytes, and one with four bytes more; the memory of [mutation()]
    after its first line. *)
Definition demo_world : world :=
  snd (boot [("main.cpp"%string, Props.demo_source)]).

Definition open_on (data : list ascii) : world :=
  mk_world (mk_os [] [(3%Z, mk_open_file data 0)] 0%Z) [] [].

Definition two_open : world :=
  mk_world
    (mk_os [] [(4%Z, mk_open_file Props.demo_source 0);
               (3%Z, mk_open_file Props.demo_source 0)] 0%Z) [] [].

Definition kilobyte : list ascii := repeat "x"%char 1024.

Definition kilobyte_and_tail : list ascii := (kilobyte ++ lit "tail")%list.

Definition hello_mem : mem := mk_mem [lit "Hello shared world!"] [] [].

(** Two watchers constructed one after the other. *)
Definition two_watchers : M (Interfaces.ConfigWatcher * Interfaces.ConfigWatcher) :=
  bind Interfaces.ctor (fun a =>
  bind Interfaces.ctor (fun b => ret (a, b))).

End Scenarios.

(** * Proofs *)

Import CInt CStr Posix World Store Props.

(** ** Lists and integers *)

Lemma skipn_length_app {A : Type} (l t : list A) : skipn (length l) (l ++ t) = t.
Proof. induction l as [|x l IH]; simpl; [reflexivity | exact IH]. Qed.

Lemma int_wrap_small (z : Z) : INT_MIN <= z <= INT_MAX -> int_wrap z = z.
Proof.
  unfold INT_MIN, INT_MAX, int_wrap. intros H.
  rewrite Z.mod_small by lia. lia.
Qed.

Lemma int_wrap_succ (z : Z) : int_wrap (int_wrap z + 1) = int_wrap (z + 1).
Proof.
  unfold int_wrap.
  replace ((z + 2 ^ 31) mod 2 ^ 32 - 2 ^ 31 + 1 + 2 ^ 31)
    with ((z + 2 ^ 31) mod 2 ^ 32 + 1) by lia.
  replace (z + 1 + 2 ^ 31) with ((z + 2 ^ 31) + 1) by lia.
  rewrite Zplus_mod_idemp_l. reflexivity.
Qed.

(** ** The descriptor table *)

Lemma fd_lookup_head (fd : Z) (f : open_file) (t : list (Z * open_file)) :
  fd_lookup fd ((fd, f) :: t) = Some f.
Proof. unfold fd_lookup. simpl. rewrite Z.eqb_refl. reflexivity. Qed.

Lemma fd_lookup_removed (fd : Z) (t : list (Z * open_file)) :
  fd_lookup fd (fd_remove fd t) = None.
Proof.
  unfold fd_lookup, fd_remove.
  induction t as [|[k f] t IH]; simpl; [reflexivity|].
  destruct (k =? fd) eqn:E; simpl; [exact IH|].
  rewrite E. exact IH.
Qed.

Lemma fd_remove_idem (fd : Z) (t : list (Z * open_file)) :
  fd_remove fd (fd_remove fd t) = fd_remove fd t.
Proof.
  unfold fd_remove.
  induction t as [|[k f] t IH]; simpl; [reflexivity|].
  destruct (k =? fd) eqn:E; simpl; [exact IH|].
  rewrite E. simpl. f_equal. exact IH.
Qed.

Lemma first_free_lower (fuel : nat) (n : Z) (t : list (Z * open_file)) :
  n <= first_free fuel n t.
Proof.
  revert n. induction fuel as [|fuel IH]; intros n; simpl; [lia|].
  destruct (existsb _ t); [|lia].
  specialize (IH (n + 1)). lia.
Qed.

(** The lowest free descriptor of two tables. *)
Example lowest_free_examples :
  lowest_free [(0, mk_open_file [] 0); (1, mk_open_file [] 0); (2, mk_open_file [] 0)] = 3 /\
  lowest_free [(2, mk_open_file [] 0); (0, mk_open_file [] 0)] = 1.
Proof. split; reflexivity. Qed.

Lemma lowest_free_nonneg (t : list (Z * open_file)) : 0 <= lowest_free t.
Proof. apply first_free_lower. Qed.

(** [read] returns -1, or the number of bytes it stored, at most [count]. *)
Lemma sys_read_result (fd : Z) (count : nat) (o : os_state) :
  let '(r, chunk, _) := sys_read fd count o in
  (r = -1 /\ chunk = []) \/
  (r = Z.of_nat (length chunk) /\ (length chunk <= count)%nat).
Proof.
  unfold sys_read. destruct (fd_lookup fd (fdt o)) as [f|].
  - right. split; [reflexivity|]. apply firstn_le_length.
  - left. split; reflexivity.
Qed.

(** ** The destructors *)

Lemma naive_dtor_effect (fd : Z) (w : world) :
  NaiveFile.dtor fd w =
  dtor_effect [(Stdout, ("(fd " ++ fmt_i fd ++ ") ~NaiveFile closing" ++ nl)%string)]
              (naive_close_failure fd) fd w.
Proof.
  unfold NaiveFile.dtor, dtor_effect, close, printf, eprintf, naive_close_failure.
  destruct (fd >=? 0); [|reflexivity]. cbn [os console calls].
  destruct (sys_close fd (os w)) as [r o]. cbn [fst snd].
  destruct (r <? 0); cbn [os console calls]; rewrite <- ?app_assoc; reflexivity.
Qed.

Lemma safe_dtor_effect (fd : Z) (w : world) :
  SafeFile.dtor fd w =
  dtor_effect [(Stdout, ("~SafeFile closing file" ++ nl)%string)] close_failure fd w.
Proof.
  unfold SafeFile.dtor, dtor_effect, close, printf, eprintf, close_failure.
  destruct (fd >=? 0); [|reflexivity]. cbn [os console calls].
  destruct (sys_close fd (os w)) as [r o]. cbn [fst snd].
  destruct (r <? 0); cbn [os console calls]; rewrite <- ?app_assoc; reflexivity.
Qed.

Lemma final_dtor_effect (fd : Z) (w : world) :
  FileWrapper.dtor fd w = dtor_effect [] close_failure fd w.
Proof.
  unfold FileWrapper.dtor, dtor_effect, close, eprintf, close_failure.
  destruct (fd >=? 0); [|reflexivity].
  destruct (sys_close fd (os w)) as [r o]. cbn [fst snd].
  destruct (r <? 0); cbn [os console calls app]; rewrite ?app_nil_r; reflexivity.
Qed.

Lemma dtor_effect_calls banner failure (fd : Z) (w : world) :
  calls (dtor_effect banner failure fd w) =
  calls w ++ (if fd >=? 0 then [SysClose fd (fst (sys_close fd (os w)))] else []).
Proof.
  unfold dtor_effect. destruct (fd >=? 0); simpl; [reflexivity|].
  rewrite app_nil_r. reflexivity.
Qed.

Lemma dtor_effect_calls_since banner failure (fd : Z) (w : world) :
  calls_since w (dtor_effect banner failure fd w) =
  if fd >=? 0 then [SysClose fd (fst (sys_close fd (os w)))] else [].
Proof.
  unfold calls_since. rewrite dtor_effect_calls. apply skipn_length_app.
Qed.

(** C2. Each of the three destructors calls [close] exactly when the
    stored descriptor is [>= 0], on that descriptor and once; with a
    negative descriptor it makes no system call at all, so [close] is
    never given a negative descriptor. *)
Theorem destructor_closes_iff_fd_nonneg (fd : Z) (w : world) :
  let expected :=
    if fd >=? 0 then [SysClose fd (fst (sys_close fd (os w)))] else [] in
  (calls_since w (NaiveFile.dtor fd w) = expected /\
   calls_since w (SafeFile.dtor fd w) = expected /\
   calls_since w (FileWrapper.dtor fd w) = expected) /\
  Forall (fun f => 0 <= f) (Main.closed_fds expected).
Proof.
  cbv zeta. split.
  - rewrite naive_dtor_effect, safe_dtor_effect, final_dtor_effect.
    rewrite !dtor_effect_calls_since. repeat split.
  - destruct (fd >=? 0) eqn:E; simpl; constructor.
    + apply Z.geb_le in E. lia.
    + constructor.
Qed.

(** ** What reaches the error stream *)


Lemma written_eprintf (s : stream) (text : string) (w : world) :
  written s (eprintf text w) =
  written s w ++ match s with Stdout => [] | Stderr => [text] end.
Proof.
  unfold written, eprintf. cbn [console].
  rewrite filter_app, map_app. destruct s; reflexivity.
Qed.





(** The three [read_1024] have the same body. *)
Lemma safe_read_1024_eq : SafeFile.read_1024 = NaiveFile.read_1024.
Proof. reflexivity. Qed.

Lemma final_read_1024_eq : FileWrapper.read_1024 = NaiveFile.read_1024.
Proof. reflexivity. Qed.









(** ** [read_1024] *)

Lemma firstn_length_app {A : Type} (l t : list A) : firstn (length l) (l ++ t) = l.
Proof. induction l as [|x l IH]; simpl; [destruct t; reflexivity | f_equal; exact IH]. Qed.

Lemma naive_read_1024_contract (fd : Z) (w : world) :
  read_1024_contract NaiveFile.read_1024 fd w.
Proof.
  unfold read_1024_contract, NaiveFile.read_1024, read.
  pose proof (sys_read_result fd 1024 (os w)) as Hr.
  destruct (sys_read fd 1024 (os w)) as [[r chunk] o].
  destruct (fd <? 0) eqn:Efd.
  - apply Z.ltb_lt in Efd. cbn [fst snd length].
    split; [lia|]. split; [reflexivity|]. lia.
  - apply Z.ltb_ge in Efd.
    assert (Hw : int_wrap r = r).
    { apply int_wrap_small. unfold INT_MIN, INT_MAX.
      destruct Hr as [[-> _]|[-> Hlen]]; lia. }
    rewrite Hw.
    destruct (r <=? 0) eqn:Er; cbn [fst snd length].
    + apply Z.leb_le in Er.
      split; [lia|]. split; [lia|]. intros _.
      split; [reflexivity|]. split; [reflexivity|]. lia.
    + apply Z.leb_gt in Er.
      destruct Hr as [[-> _]|[-> Hlen]]; [lia|].
      rewrite Nat2Z.id, firstn_length_app, firstn_all.
      split; [exact Hlen|]. split; [lia|]. intros _.
      split; [reflexivity|]. split; [lia|]. intros _. split; reflexivity.
Qed.

(** C8. For every wrapper state and every world, [read_1024] of each of
    the three classes returns at most 1024 characters; with [fd < 0] it
    returns the empty string without calling [read]; otherwise it returns
    the empty string when [read] returns zero or a negative count, and
    exactly the [n] bytes that [read] delivered when [read] returns
    [n > 0]. *)
Theorem read_1024_returns_what_was_read (fd : Z) (w : world) :
  read_1024_contract NaiveFile.read_1024 fd w /\
  read_1024_contract SafeFile.read_1024 fd w /\
  read_1024_contract FileWrapper.read_1024 fd w.
Proof.
  rewrite safe_read_1024_eq, final_read_1024_eq.
  repeat split; apply naive_read_1024_contract.
Qed.

(** ** The object store and the move operations *)

Lemma get_set_same (x : var) (v u : Z) (st : store) :
  get x st = Some u -> get x (set x v st) = Some v.
Proof.
  induction st as [|[y t] st IH]; simpl; [discriminate|].
  destruct (String.eqb x y) eqn:E; simpl; rewrite E; [reflexivity | exact IH].
Qed.

Lemma get_set_other (x y : var) (v : Z) (st : store) :
  x <> y -> get y (set x v st) = get y st.
Proof.
  intros Hne. induction st as [|[z t] st IH]; simpl; [reflexivity|].
  destruct (String.eqb x z) eqn:E; simpl.
  - apply String.eqb_eq in E. subst z.
    destruct (String.eqb y x) eqn:E2; [|reflexivity].
    apply String.eqb_eq in E2. congruence.
  - rewrite IH. reflexivity.
Qed.

Lemma calls_since_refl (w : world) : calls_since w w = [].
Proof. unfold calls_since. apply skipn_all. Qed.

(** Destroying a [FileWrapper] that holds -1 makes no system call. *)
Lemma destroy_moved_from (x : var) (st : store) (w : world) :
  get x st = Some (-1) ->
  calls_since w (snd (Main.destroy x FileWrapper.dtor (st, w))) = [].
Proof.
  intros H. unfold Main.destroy. cbn [fst snd]. rewrite H.
  cbn [snd]. unfold FileWrapper.dtor. cbn. apply calls_since_refl.
Qed.

Lemma move_assign_self (x : var) (v : Z) (st : store) :
  get x st = Some v -> get x (FileWrapper.move_assign x x st) = Some (-1).
Proof.
  intros H. unfold FileWrapper.move_assign. rewrite H.
  apply get_set_same with (u := v). apply get_set_same with (u := v). exact H.
Qed.

(** C3, as claimed, fails when a wrapper is move-assigned to itself
    ([file = std::move(file)]): the object that held descriptor 3 ends
    with -1, not with the descriptor the source had. *)
Lemma self_move_assign_loses_descriptor :
  ~ transfers FileWrapper.move_assign "file"%string "file"%string [("file"%string, 3)].
Proof.
  intros H. destruct (H 3 eq_refl) as [H1 _].
  vm_compute in H1. discriminate H1.
Qed.

(** C3, amended. Move construction of a new object [this], and move
    assignment to a live object [this], from a different object
    [wrapper], transfer the descriptor: afterwards [this] holds the
    descriptor that [wrapper] held, [wrapper] holds -1, and destroying
    [wrapper] does not close the transferred descriptor.  Move assignment
    of an object to itself leaves it with -1. *)
Theorem move_transfers_between_distinct_objects
    (this wrapper : var) (st : store) :
  this <> wrapper ->
  transfers FileWrapper.move_ctor this wrapper st /\
  (get this st <> None -> transfers FileWrapper.move_assign this wrapper st) /\
  (forall v, get wrapper st = Some v ->
     get wrapper (FileWrapper.move_assign wrapper wrapper st) = Some (-1)).
Proof.
  intros Hne.
  assert (Hne' : wrapper <> this) by congruence.
  assert (Hneq : String.eqb this wrapper = false) by (apply String.eqb_neq; exact Hne).
  assert (Hneq' : String.eqb wrapper this = false) by (apply String.eqb_neq; exact Hne').
  split; [|split].
  - intros v Hv. unfold FileWrapper.move_ctor. rewrite Hv.
    assert (Hsrc : get wrapper (set wrapper (-1) ((this, v) :: st)) = Some (-1)).
    { simpl. rewrite Hneq'. simpl. rewrite Hneq'.
      apply get_set_same with (u := v). exact Hv. }
    split; [|split].
    + simpl. rewrite Hneq'. simpl. rewrite String.eqb_refl. reflexivity.
    + exact Hsrc.
    + intros w. rewrite (destroy_moved_from _ _ _ Hsrc). simpl. tauto.
  - intros Hlive v Hv. unfold FileWrapper.move_assign. rewrite Hv.
    destruct (get this st) as [u|] eqn:Hu; [|congruence].
    assert (Hsrc : get wrapper (set wrapper (-1) (set this v st)) = Some (-1)).
    { apply get_set_same with (u := v).
      rewrite get_set_other by exact Hne. exact Hv. }
    split; [|split].
    + rewrite get_set_other by exact Hne'.
      apply get_set_same with (u := u). exact Hu.
    + exact Hsrc.
    + intros w. rewrite (destroy_moved_from _ _ _ Hsrc). simpl. tauto.
  - intros v Hv. apply move_assign_self with (v := v). exact Hv.
Qed.

(** The amended C3 at two objects [file2] and [file], the second holding
    descriptor 3. *)
Lemma move_transfers_witness :
  ("file2"%string <> "file"%string) /\
  transfers FileWrapper.move_ctor "file2"%string "file"%string
    [("file"%string, 3)] /\
  transfers FileWrapper.move_assign "file2"%string "file"%string
    [("file2"%string, -1); ("file"%string, 3)].
Proof.
  split; [discriminate|]. split.
  - apply (move_transfers_between_distinct_objects
             "file2"%string "file"%string [("file"%string, 3)]).
    discriminate.
  - apply (move_transfers_between_distinct_objects
             "file2"%string "file"%string
             [("file2"%string, -1); ("file"%string, 3)]);
      discriminate.
Defined.

(** ** The heap of strings and the two counting loops *)

Section SmartPointers.
Import Mem Mutation Interfaces.

Lemma nth_error_mid {A : Type} (pre suf : list A) (c : A) :
  nth_error (pre ++ c :: suf) (length pre) = Some c.
Proof. induction pre as [|x pre IH]; simpl; [reflexivity | exact IH]. Qed.

Lemma set_at_mid {A : Type} (pre suf : list A) (c v : A) :
  set_at (length pre) v (pre ++ c :: suf) = pre ++ v :: suf.
Proof. induction pre as [|x pre IH]; simpl; [reflexivity | f_equal; exact IH]. Qed.

Lemma set_at_same {A : Type} (i : nat) (v : A) (l : list A) :
  nth_error l i = Some v -> set_at i v l = l.
Proof.
  revert i. induction l as [|x l IH]; intros [|i] H; simpl in *;
    try reflexivity.
  - congruence.
  - f_equal. apply IH. exact H.
Qed.

Lemma set_at_twice {A : Type} (i : nat) (u v : A) (l : list A) :
  set_at i v (set_at i u l) = set_at i v l.
Proof.
  revert i. induction l as [|x l IH]; intros [|i]; simpl;
    try reflexivity.
  f_equal. apply IH.
Qed.

Lemma nth_error_set_at {A : Type} (i : nat) (u v : A) (l : list A) :
  nth_error l i = Some u -> nth_error (set_at i v l) i = Some v.
Proof.
  revert i. induction l as [|x l IH]; intros [|i] H; simpl in *;
    try discriminate; try reflexivity.
  apply IH. exact H.
Qed.

Lemma occurrences_cons (d c : ascii) (s : std_string) :
  occurrences d (c :: s) =
  ((if Ascii.eqb c d then 1 else 0) + occurrences d s)%nat.
Proof.
  unfold occurrences. simpl.
  destruct (ascii_dec c d) as [E|E].
  - apply Ascii.eqb_eq in E. rewrite E. reflexivity.
  - apply Ascii.eqb_neq in E. rewrite E. reflexivity.
Qed.

(** The loop of [count_bad] with [pre] behind the iterator and [suf]
    ahead of it. *)
Lemma count_bad_loop_spec (d : ascii) (s : ptr) (suf : std_string) :
  forall (pre : std_string) (fuel : nat) (z : Z) (m : mem),
    nth_error (strings m) s = Some (pre ++ suf) ->
    (length suf < fuel)%nat ->
    count_bad_loop fuel s d (length pre) (int_wrap z) m =
    Some (int_wrap (z + Z.of_nat (occurrences d suf)),
          mk_mem (set_at s (pre ++ starred d suf) (strings m)) (configs m) (out m)).
Proof.
  induction suf as [|c suf IH]; intros pre fuel z m Hs Hfuel.
  - destruct fuel as [|fuel]; [simpl in Hfuel; lia|].
    simpl. unfold bind, load_string. rewrite Hs.
    rewrite app_nil_r, Nat.eqb_refl. unfold ret.
    rewrite Z.add_0_r. rewrite app_nil_r in Hs.
    destruct m as [ss cs o]. cbn [strings configs out] in *.
    do 3 f_equal. symmetry. apply set_at_same. exact Hs.
  - destruct fuel as [|fuel]; [simpl in Hfuel; lia|].
    simpl in Hfuel.
    cbn [count_bad_loop]. unfold bind at 1. unfold load_string at 1. rewrite Hs.
    replace (Nat.eqb (length pre) (length (pre ++ c :: suf))) with false
      by (symmetry; apply Nat.eqb_neq; rewrite length_app; simpl; lia).
    rewrite nth_error_mid, occurrences_cons.
    destruct (Ascii.eqb c d) eqn:E.
    + unfold bind, store_string. rewrite Hs, set_at_mid.
      rewrite int_wrap_succ.
      replace (S (length pre)) with (length (pre ++ ["*"%char]))
        by (rewrite length_app; simpl; lia).
      rewrite IH; [| |lia].
      * cbn [strings configs out]. rewrite set_at_twice.
        unfold starred at 2. cbn [map]. rewrite E.
        rewrite <- app_assoc. cbn [app]. fold (starred d suf).
        do 3 f_equal. lia.
      * cbn [strings]. rewrite <- app_assoc. cbn [app].
        apply nth_error_set_at with (u := pre ++ c :: suf). exact Hs.
    + replace (S (length pre)) with (length (pre ++ [c]))
        by (rewrite length_app; simpl; lia).
      rewrite IH; [| |lia].
      * unfold starred at 2. cbn [map]. rewrite E.
        rewrite <- app_assoc. cbn [app]. fold (starred d suf).
        do 3 f_equal.
      * rewrite <- app_assoc. exact Hs.
Qed.

Lemma count_good_loop_spec (d : ascii) (s : ptr) (suf : std_string) :
  forall (pre : std_string) (fuel : nat) (z : Z) (m : mem),
    nth_error (strings m) s = Some (pre ++ suf) ->
    (length suf < fuel)%nat ->
    count_good_loop fuel s d (length pre) (int_wrap z) m =
    Some (int_wrap (z + Z.of_nat (occurrences d suf)), m).
Proof.
  induction suf as [|c suf IH]; intros pre fuel z m Hs Hfuel.
  - destruct fuel as [|fuel]; [simpl in Hfuel; lia|].
    simpl. unfold bind, load_string. rewrite Hs.
    rewrite app_nil_r, Nat.eqb_refl. unfold ret.
    rewrite Z.add_0_r. reflexivity.
  - destruct fuel as [|fuel]; [simpl in Hfuel; lia|].
    simpl in Hfuel.
    cbn [count_good_loop]. unfold bind at 1. unfold load_string at 1. rewrite Hs.
    replace (Nat.eqb (length pre) (length (pre ++ c :: suf))) with false
      by (symmetry; apply Nat.eqb_neq; rewrite length_app; simpl; lia).
    rewrite nth_error_mid, occurrences_cons.
    destruct (Ascii.eqb c d) eqn:E.
    + rewrite int_wrap_succ.
      replace (S (length pre)) with (length (pre ++ [c]))
        by (rewrite length_app; simpl; lia).
      rewrite IH; [| |lia].
      * do 3 f_equal. lia.
      * rewrite <- app_assoc. exact Hs.
    + replace (S (length pre)) with (length (pre ++ [c]))
        by (rewrite length_app; simpl; lia).
      rewrite IH; [| |lia].
      * reflexivity.
      * rewrite <- app_assoc. exact Hs.
Qed.

Lemma int_wrap_zero : int_wrap 0 = 0.
Proof. reflexivity. Qed.

Lemma count_bad_spec (m : mem) (s : ptr) (str : std_string) (d : ascii) :
  nth_error (strings m) s = Some str ->
  count_bad s d m =
  Some (int_wrap (Z.of_nat (occurrences d str)),
        mk_mem (set_at s (starred d str) (strings m)) (configs m) (out m)).
Proof.
  intros Hs. unfold count_bad, bind. unfold load_string at 1. rewrite Hs.
  rewrite <- int_wrap_zero at 1.
  apply (count_bad_loop_spec d s str [] (S (length str)) 0 m Hs).
  lia.
Qed.

Lemma count_good_spec (m : mem) (s : ptr) (str : std_string) (d : ascii) :
  nth_error (strings m) s = Some str ->
  count_good s d m = Some (int_wrap (Z.of_nat (occurrences d str)), m).
Proof.
  intros Hs. unfold count_good, bind. unfold load_string at 1. rewrite Hs.
  rewrite <- int_wrap_zero at 1.
  apply (count_good_loop_spec d s str [] (S (length str)) 0 m Hs).
  lia.
Qed.

(** C4. For every string [str] behind the shared pointer [s] and every
    character [d] (the number of occurrences being one that an [int]
    holds), [count_bad] returns the number of occurrences of [d] in
    [str] and leaves, at the address that the caller's pointer holds, the
    string with each occurrence overwritten by a star: the caller's string
    is changed through the [const] reference to the pointer. *)
Theorem count_bad_counts_and_overwrites
    (m : mem) (s : ptr) (str : std_string) (d : ascii) :
  nth_error (strings m) s = Some str ->
  Z.of_nat (occurrences d str) <= INT_MAX ->
  let m' := mk_mem (set_at s (starred d str) (strings m)) (configs m) (out m) in
  count_bad s d m = Some (Z.of_nat (occurrences d str), m') /\
  load_string s m' = Some (starred d str, m').
Proof.
  intros Hs Hmax. cbv zeta. split.
  - rewrite (count_bad_spec m s str d Hs).
    rewrite int_wrap_small; [reflexivity|].
    unfold INT_MIN. unfold INT_MAX in *. lia.
  - unfold load_string. cbn [strings].
    rewrite (nth_error_set_at s str (starred d str) (strings m) Hs).
    reflexivity.
Qed.

(** C4 on the string and the character of [mutation()]. *)
Lemma count_bad_hello_witness :
  count_bad 0%nat "l"%char (mk_mem [lit "Hello shared world!"] [] []) =
    Some (3, mk_mem [lit "He**o shared wor*d!"] [] []) /\
  load_string 0%nat (mk_mem [lit "He**o shared wor*d!"] [] []) =
    Some (lit "He**o shared wor*d!", mk_mem [lit "He**o shared wor*d!"] [] []).
Proof.
  exact (count_bad_counts_and_overwrites
           (mk_mem [lit "Hello shared world!"] [] []) 0%nat
           (lit "Hello shared world!") "l"%char
           eq_refl
           ltac:(vm_compute; discriminate)).
Defined.

(** C9. For every string [str] and character [d], [count_good] on a
    reference to [str] leaves the memory, and so the string, unchanged,
    and returns the number that [count_bad] returns on a fresh shared
    pointer that holds a copy of [str]. *)
Theorem count_good_agrees_with_count_bad
    (m : mem) (s : ptr) (str : std_string) (d : ascii) :
  nth_error (strings m) s = Some str ->
  exists n : Z,
    count_good s d m = Some (n, m) /\
    (p <- make_shared_string str ;; count_bad p d)%mem m =
      Some (n, mk_mem (strings m ++ [starred d str]) (configs m) (out m)).
Proof.
  intros Hs. exists (int_wrap (Z.of_nat (occurrences d str))). split.
  - apply count_good_spec. exact Hs.
  - unfold bind, make_shared_string.
    rewrite (count_bad_spec _ (length (strings m)) str d).
    + cbn [strings configs out]. rewrite set_at_mid. reflexivity.
    + cbn [strings]. apply nth_error_mid.
Qed.

(** C9 on the string and the character of [mutation()]. *)
Lemma count_good_hello_witness :
  exists n : Z,
    count_good 0%nat "l"%char (mk_mem [lit "Hello shared world!"] [] []) =
      Some (n, mk_mem [lit "Hello shared world!"] [] []) /\
    (p <- make_shared_string (lit "Hello shared world!") ;; count_bad p "l"%char)%mem
      (mk_mem [lit "Hello shared world!"] [] []) =
      Some (n, mk_mem ([lit "Hello shared world!"]
                         ++ [starred "l"%char (lit "Hello shared world!")]) [] []).
Proof.
  exact (count_good_agrees_with_count_bad
           (mk_mem [lit "Hello shared world!"] [] []) 0%nat
           (lit "Hello shared world!") "l"%char eq_refl).
Defined.

(** ** [ConfigWatcher] *)



End SmartPointers.

(** ** The blocks of [main], step by step *)

Import Main.

Lemma say_eq (text : string) (st : store) (w : world) :
  say text (st, w) = (st, printf text w).
Proof. reflexivity. Qed.

Lemma construct_eq (x : var) (ctor : world -> Z * world) (st : store) (w : world) :
  construct x ctor (st, w) = ((x, fst (ctor w)) :: st, snd (ctor w)).
Proof. unfold construct. cbn [fst snd]. destruct (ctor w). reflexivity. Qed.

Lemma get_head (x : var) (v : Z) (st : store) : get x ((x, v) :: st) = Some v.
Proof. simpl. rewrite String.eqb_refl. reflexivity. Qed.

Lemma remove_head (x : var) (v : Z) (st : store) : remove x ((x, v) :: st) = st.
Proof. simpl. rewrite String.eqb_refl. reflexivity. Qed.

Lemma copy_construct_head (x src : var) (copy : Z -> Z) (v : Z) (st : store) (w : world) :
  copy_construct x src copy ((src, v) :: st, w) = ((x, copy v) :: (src, v) :: st, w).
Proof. unfold copy_construct. cbn [fst snd]. rewrite get_head. reflexivity. Qed.

Lemma call_on_head (x : var) (f : Z -> world -> world) (v : Z) (st : store) (w : world) :
  call_on x f ((x, v) :: st, w) = ((x, v) :: st, f v w).
Proof. unfold call_on. cbn [fst snd]. rewrite get_head. reflexivity. Qed.

Lemma destroy_head (x : var) (dtor : Z -> world -> world) (v : Z) (st : store) (w : world) :
  destroy x dtor ((x, v) :: st, w) = (st, dtor v w).
Proof. unfold destroy. cbn [fst snd]. rewrite get_head, remove_head. reflexivity. Qed.

Lemma ltb_0_geb_0 (z : Z) : (z <? 0) = negb (z >=? 0).
Proof. rewrite Z.geb_leb. apply Z.ltb_antisym. Qed.

(** The system calls of the member functions. *)

Lemma open_fst (path : string) (w : world) :
  fst (open path w) = fst (sys_open path (os w)).
Proof. unfold open. destruct (sys_open path (os w)). reflexivity. Qed.

Lemma open_calls (path : string) (w : world) :
  calls (snd (open path w)) =
  calls w ++ [SysOpen path (fst (sys_open path (os w)))].
Proof. unfold open. destruct (sys_open path (os w)). reflexivity. Qed.

Lemma naive_ctor_fst (path : std_string) (w : world) :
  fst (NaiveFile.ctor path w) = fst (sys_open (c_str path) (os w)).
Proof.
  unfold NaiveFile.ctor. rewrite <- open_fst.
  destruct (open (c_str path) w). reflexivity.
Qed.

Lemma naive_ctor_calls (path : std_string) (w : world) :
  calls (snd (NaiveFile.ctor path w)) =
  calls w ++ [SysOpen (c_str path) (fst (sys_open (c_str path) (os w)))].
Proof.
  unfold NaiveFile.ctor. rewrite <- open_calls.
  destruct (open (c_str path) w). reflexivity.
Qed.

Lemma read_1024_calls (fd : Z) (w : world) :
  calls (snd (NaiveFile.read_1024 fd w)) =
  calls w ++
  (if fd >=? 0 then [SysRead fd 1024 (fst (fst (sys_read fd 1024 (os w))))] else []).
Proof.
  unfold NaiveFile.read_1024, read. rewrite ltb_0_geb_0.
  destruct (fd >=? 0); cbn [negb snd]; [|rewrite app_nil_r; reflexivity].
  destruct (sys_read fd 1024 (os w)) as [[r c] o]. cbn [fst].
  destruct (int_wrap r <=? 0); reflexivity.
Qed.

Lemma accidental_copy_calls (fd : Z) (w : world) :
  calls (accidental_copy NaiveFile.read_1024 fd w) =
  calls (snd (NaiveFile.read_1024 fd w)).
Proof.
  unfold accidental_copy. destruct (NaiveFile.read_1024 fd w) as [content w1].
  destruct (1024 <=? length content)%nat; reflexivity.
Qed.

(** The three blocks, from any store and any world. *)

Lemma naive_demo_run (filename : std_string) (st : store) (w : world) :
  let w0 := printf ("Naive file wrapper" ++ nl) w in
  let fd := fst (NaiveFile.ctor filename w0) in
  let w1 := snd (NaiveFile.ctor filename w0) in
  let w2 := accidental_copy NaiveFile.read_1024 fd w1 in
  let w3 := NaiveFile.dtor fd w2 in
  let w4 := NaiveFile.dtor fd w3 in
  let w5 := NaiveFile.dtor fd w4 in
  run (naive_demo filename) (st, w) = (st, printf (nl ++ nl) w5).
Proof.
  cbv zeta. unfold run, naive_demo. cbn [fold_left].
  rewrite say_eq, construct_eq, copy_construct_head, call_on_head, destroy_head,
    copy_construct_head, destroy_head, destroy_head, say_eq.
  reflexivity.
Qed.

Lemma safe_demo_run (filename : std_string) (st : store) (w : world) :
  let w0 := printf ("Safe file wrapper" ++ nl) w in
  let fd := fst (SafeFile.ctor filename w0) in
  let w1 := snd (SafeFile.ctor filename w0) in
  run (safe_demo filename) (st, w) = (st, printf (nl ++ nl) (SafeFile.dtor fd w1)).
Proof.
  cbv zeta. unfold run, safe_demo. cbn [fold_left].
  rewrite say_eq, construct_eq, destroy_head, say_eq. reflexivity.
Qed.

Lemma final_demo_run (filename : std_string) (st : store) (w : world) :
  let w0 := printf ("File file wrapper" ++ nl) w in
  let fd := fst (FileWrapper.ctor filename w0) in
  let w1 := snd (FileWrapper.ctor filename w0) in
  run (final_demo filename) (st, w) = (st, printf (nl ++ nl) (FileWrapper.dtor fd w1)).
Proof.
  cbv zeta. unfold run, final_demo. cbn [fold_left].
  rewrite say_eq, construct_eq, destroy_head, say_eq. reflexivity.
Qed.

(** Programs run in sequence. *)
Lemma run_app (p q : program) (s : state) : run (p ++ q) s = run q (run p s).
Proof. unfold run. apply fold_left_app. Qed.

Lemma points_app (p q : program) (s : state) :
  points (p ++ q) s = points p s ++ tl (points q (run p s)).
Proof.
  revert s. induction p as [|step p IH]; intros s.
  - destruct q; reflexivity.
  - cbn [app points]. rewrite IH. reflexivity.
Qed.

(** The system calls of one block: one [open], and when it succeeded a
    number of [close] calls on its result, preceded by a [read] in the
    first block. *)
Lemma naive_demo_calls (filename : std_string) (st : store) (w : world) :
  let fd := fst (sys_open (c_str filename) (os w)) in
  exists r r1 r2 r3 : Z,
    calls (snd (run (naive_demo filename) (st, w))) =
    calls w ++
    SysOpen (c_str filename) fd ::
    (if fd >=? 0
     then [SysRead fd 1024 r; SysClose fd r1; SysClose fd r2; SysClose fd r3]
     else []).
Proof.
  cbv zeta. rewrite naive_demo_run. cbv zeta. cbn [snd].
  rewrite !naive_dtor_effect.
  change (calls (printf (nl ++ nl) ?x)) with (calls x).
  rewrite !dtor_effect_calls, accidental_copy_calls, read_1024_calls, naive_ctor_calls.
  rewrite naive_ctor_fst.
  change (os (printf ?t w)) with (os w).
  change (calls (printf ?t w)) with (calls w).
  set (fd := fst (sys_open (c_str filename) (os w))).
  destruct (fd >=? 0).
  - do 4 eexists. rewrite <- !app_assoc. cbn [app]. reflexivity.
  - exists 0, 0, 0, 0. rewrite !app_nil_r. reflexivity.
Qed.

Lemma safe_demo_calls (filename : std_string) (st : store) (w : world) :
  let fd := fst (sys_open (c_str filename) (os w)) in
  exists r : Z,
    calls (snd (run (safe_demo filename) (st, w))) =
    calls w ++
    SysOpen (c_str filename) fd :: (if fd >=? 0 then [SysClose fd r] else []).
Proof.
  cbv zeta. rewrite safe_demo_run. cbv zeta. cbn [snd].
  unfold SafeFile.ctor.
  rewrite safe_dtor_effect.
  change (calls (printf (nl ++ nl) ?x)) with (calls x).
  rewrite dtor_effect_calls, open_calls, open_fst.
  change (os (printf ?t w)) with (os w).
  change (calls (printf ?t w)) with (calls w).
  set (fd := fst (sys_open (c_str filename) (os w))).
  destruct (fd >=? 0).
  - eexists. rewrite <- !app_assoc. reflexivity.
  - exists 0. rewrite !app_nil_r. reflexivity.
Qed.

Lemma final_demo_calls (filename : std_string) (st : store) (w : world) :
  let fd := fst (sys_open (c_str filename) (os w)) in
  exists r : Z,
    calls (snd (run (final_demo filename) (st, w))) =
    calls w ++
    SysOpen (c_str filename) fd :: (if fd >=? 0 then [SysClose fd r] else []).
Proof.
  cbv zeta. rewrite final_demo_run. cbv zeta. cbn [snd].
  unfold FileWrapper.ctor.
  rewrite final_dtor_effect.
  change (calls (printf (nl ++ nl) ?x)) with (calls x).
  rewrite dtor_effect_calls, open_calls, open_fst.
  change (os (printf ?t w)) with (os w).
  change (calls (printf ?t w)) with (calls w).
  set (fd := fst (sys_open (c_str filename) (os w))).
  destruct (fd >=? 0).
  - eexists. rewrite <- !app_assoc. reflexivity.
  - exists 0. rewrite !app_nil_r. reflexivity.
Qed.

(** A block leaves the store as it found it. *)
Lemma naive_demo_store (filename : std_string) (st : store) (w : world) :
  fst (run (naive_demo filename) (st, w)) = st.
Proof. rewrite naive_demo_run. reflexivity. Qed.

Lemma safe_demo_store (filename : std_string) (st : store) (w : world) :
  fst (run (safe_demo filename) (st, w)) = st.
Proof. rewrite safe_demo_run. reflexivity. Qed.

(** The per-descriptor counts of a trace of three blocks. *)
Lemma close_counts_three_blocks (p : string) (fd1 fd2 fd3 r r1 r2 r3 s f : Z) :
  close_counts
    ((SysOpen p fd1 ::
        (if fd1 >=? 0
         then [SysRead fd1 1024 r; SysClose fd1 r1; SysClose fd1 r2; SysClose fd1 r3]
         else [])) ++
     (SysOpen p fd2 :: (if fd2 >=? 0 then [SysClose fd2 s] else [])) ++
     (SysOpen p fd3 :: (if fd3 >=? 0 then [SysClose fd3 f] else []))) =
  (if fd1 >=? 0 then [(fd1, 3%nat)] else []) ++
  (if fd2 >=? 0 then [(fd2, 1%nat)] else []) ++
  (if fd3 >=? 0 then [(fd3, 1%nat)] else []).
Proof.
  destruct (fd1 >=? 0) eqn:E1, (fd2 >=? 0) eqn:E2, (fd3 >=? 0) eqn:E3;
    cbn [app close_counts closes_of];
    rewrite ?E1, ?E2, ?E3, ?Z.eqb_refl; cbn [app];
    destruct (fd2 =? fd1), (fd3 =? fd1), (fd3 =? fd2); reflexivity.
Qed.

(** ** How often each opened descriptor is closed *)

(** C1, as claimed, fails on [main] itself: started in a directory that
    holds its source file, the descriptor that [NaiveFile] opens has
    [close] called on it three times. *)
Lemma naive_descriptor_closed_three_times :
  close_counts
    (calls (snd (run (main (lit "main.cpp")) (boot [("main.cpp"%string, demo_source)]))))
  = [(3, 3%nat); (3, 1%nat); (3, 1%nat)] /\
  closed_exactly_once
    (calls (snd (run (main (lit "main.cpp")) (boot [("main.cpp"%string, demo_source)]))))
  = false.
Proof. split; vm_compute; reflexivity. Qed.

(** C1, amended. From any store and any world, the [SafeFile] block and
    the [FileWrapper] block of [main] call [close] exactly once on the
    descriptor they opened, and the [NaiveFile] block calls [close] three
    times on the descriptor it opened (once per copy and once for the
    original); a block whose [open] failed closes nothing.  So it is for
    [main] as a whole: three times for the first [open] that succeeds,
    once for the second and once for the third. *)
Theorem closes_per_opened_descriptor (filename : std_string) (st : store) (w : world) :
  let count (k : nat) (v : world) :=
    let fd := fst (sys_open (c_str filename) (os v)) in
    if fd >=? 0 then [(fd, k)] else [] in
  let w1 := snd (run (naive_demo filename) (st, w)) in
  let w2 := snd (run (safe_demo filename) (st, w1)) in
  close_counts (calls_since w (snd (run (safe_demo filename) (st, w)))) = count 1%nat w /\
  close_counts (calls_since w (snd (run (final_demo filename) (st, w)))) = count 1%nat w /\
  close_counts (calls_since w (snd (run (naive_demo filename) (st, w)))) = count 3%nat w /\
  close_counts (calls_since w (snd (run (main filename) (st, w)))) =
    count 3%nat w ++ count 1%nat w1 ++ count 1%nat w2.
Proof.
  cbv zeta. repeat apply conj.
  - destruct (safe_demo_calls filename st w) as [r Hs]. cbv zeta in Hs.
    unfold calls_since. rewrite Hs, skipn_length_app.
    destruct (fst (sys_open (c_str filename) (os w)) >=? 0) eqn:E;
      cbn [close_counts closes_of]; rewrite E, ?Z.eqb_refl; reflexivity.
  - destruct (final_demo_calls filename st w) as [r Hf]. cbv zeta in Hf.
    unfold calls_since. rewrite Hf, skipn_length_app.
    destruct (fst (sys_open (c_str filename) (os w)) >=? 0) eqn:E;
      cbn [close_counts closes_of]; rewrite E, ?Z.eqb_refl; reflexivity.
  - destruct (naive_demo_calls filename st w) as (q & q1 & q2 & q3 & Hn).
    cbv zeta in Hn. unfold calls_since. rewrite Hn, skipn_length_app.
    destruct (fst (sys_open (c_str filename) (os w)) >=? 0) eqn:E;
      cbn [close_counts closes_of]; rewrite E, ?Z.eqb_refl; reflexivity.
  - unfold main. rewrite !run_app.
    rewrite (surjective_pairing (run (naive_demo filename) (st, w))).
    rewrite naive_demo_store.
    set (w1 := snd (run (naive_demo filename) (st, w))).
    rewrite (surjective_pairing (run (safe_demo filename) (st, w1))).
    rewrite safe_demo_store.
    set (w2 := snd (run (safe_demo filename) (st, w1))).
    destruct (naive_demo_calls filename st w) as (q & q1 & q2 & q3 & Hn).
    destruct (safe_demo_calls filename st w1) as [r Hs].
    destruct (final_demo_calls filename st w2) as [r' Hf].
    cbv zeta in Hn, Hs, Hf. fold w1 in Hn. fold w2 in Hs.
    unfold calls_since. rewrite Hf, Hs, Hn. rewrite <- !app_assoc.
    rewrite skipn_length_app.
    apply (close_counts_three_blocks (c_str filename)).
Qed.

(** ** Who holds a descriptor *)

(** C6, as claimed, fails on [main]: while [accidental_copy] runs, its
    parameter and [naive_file] are both live and both hold descriptor 3. *)
Lemma naive_copies_share_descriptor :
  map held (firstn 5 (points (main (lit "main.cpp"))
                             (boot [("main.cpp"%string, demo_source)])))
  = [[]; []; [3]; [3; 3]; [3; 3]] /\
  forallb single_owner
    (points (main (lit "main.cpp")) (boot [("main.cpp"%string, demo_source)]))
  = false.
Proof. split; vm_compute; reflexivity. Qed.

Lemma forallb_tl {A : Type} (f : A -> bool) (l : list A) :
  forallb f l = true -> forallb f (tl l) = true.
Proof.
  destruct l as [|x l]; [reflexivity|]. cbn [forallb tl].
  intros H. apply andb_prop in H. apply H.
Qed.

Lemma tl_points_app (p : program) (s : state) (l : list state) :
  tl (points p s ++ l) = tl (points p s) ++ l.
Proof. destruct p; reflexivity. Qed.

Lemma single_owner_one (x : var) (v : Z) (w : world) :
  single_owner ([(x, v)], w) = true.
Proof. unfold single_owner, held. simpl. destruct (v >=? 0); reflexivity. Qed.

Lemma single_owner_two (x y : var) (v : Z) (w : world) :
  single_owner ([(x, v); (y, v)], w) = negb (v >=? 0).
Proof.
  unfold single_owner, held. simpl.
  destruct (v >=? 0); simpl; [rewrite Z.eqb_refl|]; reflexivity.
Qed.

(** C6, amended. In the [SafeFile] and [FileWrapper] blocks no two live
    wrapper objects hold the same descriptor at any point.  In the
    [NaiveFile] block the parameter of [accidental_copy] and [file2] hold
    the descriptor of [naive_file] while they live, so two live objects
    share a descriptor [>= 0] exactly when [open] succeeded; and so it is
    for [main] as a whole. *)
Theorem single_owner_except_naive_copies (filename : std_string) (w : world) :
  let fd := fst (sys_open (c_str filename) (os w)) in
  forallb single_owner (points (safe_demo filename) ([], w)) = true /\
  forallb single_owner (points (final_demo filename) ([], w)) = true /\
  map (fun s => map snd (fst s)) (points (naive_demo filename) ([], w)) =
    [[]; []; [fd]; [fd; fd]; [fd; fd]; [fd]; [fd; fd]; [fd]; []; []] /\
  forallb single_owner (points (naive_demo filename) ([], w)) = negb (fd >=? 0) /\
  forallb single_owner (points (main filename) ([], w)) = negb (fd >=? 0).
Proof.
  cbv zeta.
  assert (Hsafe : forall v, forallb single_owner (points (safe_demo filename) ([], v)) = true).
  { intros v. unfold safe_demo. cbn [points].
    rewrite say_eq, construct_eq, destroy_head, say_eq.
    cbn [forallb]. rewrite single_owner_one. reflexivity. }
  assert (Hfinal : forall v, forallb single_owner (points (final_demo filename) ([], v)) = true).
  { intros v. unfold final_demo. cbn [points].
    rewrite say_eq, construct_eq, destroy_head, say_eq.
    cbn [forallb]. rewrite single_owner_one. reflexivity. }
  assert (Hnaive : forallb single_owner (points (naive_demo filename) ([], w)) =
                   negb (fst (sys_open (c_str filename) (os w)) >=? 0)).
  { unfold naive_demo. cbn [points].
    rewrite say_eq, construct_eq, copy_construct_head, call_on_head, destroy_head,
      copy_construct_head, destroy_head, destroy_head, say_eq.
    rewrite naive_ctor_fst. cbn [forallb].
    unfold NaiveFile.copy.
    rewrite !single_owner_one, !single_owner_two.
    change (os (printf ?t w)) with (os w).
    destruct (fst (sys_open (c_str filename) (os w)) >=? 0); reflexivity. }
  repeat apply conj.
  - apply Hsafe.
  - apply Hfinal.
  - unfold naive_demo. cbn [points].
    rewrite say_eq, construct_eq, copy_construct_head, call_on_head, destroy_head,
      copy_construct_head, destroy_head, destroy_head, say_eq.
    rewrite naive_ctor_fst. reflexivity.
  - exact Hnaive.
  - unfold main. rewrite !points_app, tl_points_app, !forallb_app, Hnaive.
    rewrite (surjective_pairing (run (naive_demo filename) ([], w))).
    rewrite naive_demo_store.
    set (w1 := snd (run (naive_demo filename) ([], w))).
    transitivity (negb (fst (sys_open (c_str filename) (os w)) >=? 0) && (true && true));
      [|rewrite !andb_true_r; reflexivity].
    f_equal. f_equal.
    + apply forallb_tl, Hsafe.
    + match goal with
      | |- forallb _ (tl (points _ ?s)) = true =>
          assert (Hst : fst s = []) by apply safe_demo_store;
          destruct s as [st2 w2]; cbn [fst] in Hst; subst st2
      end.
      apply forallb_tl, Hfinal.
Qed.

(** ** The first block of [main] when the file exists *)

Lemma fd_remove_head (fd : Z) (f : open_file) (t : list (Z * open_file)) :
  fd_remove fd ((fd, f) :: t) = fd_remove fd t.
Proof. unfold fd_remove. simpl. rewrite Z.eqb_refl. reflexivity. Qed.

Lemma sys_close_open (fd : Z) (f : open_file) files t e :
  sys_close fd (mk_os files ((fd, f) :: t) e) = (0, mk_os files (fd_remove fd t) e).
Proof.
  unfold sys_close. cbn [fs fdt errno].
  rewrite fd_lookup_head, fd_remove_head. reflexivity.
Qed.

Lemma sys_close_closed (fd : Z) files t e :
  sys_close fd (mk_os files (fd_remove fd t) e) =
  (-1, mk_os files (fd_remove fd t) EBADF).
Proof.
  unfold sys_close. cbn [fs fdt errno].
  rewrite fd_lookup_removed. reflexivity.
Qed.

Lemma sys_read_fresh (fd : Z) (data : list ascii) files t e :
  sys_read fd 1024 (mk_os files ((fd, mk_open_file data 0) :: t) e) =
  (Z.of_nat (length (firstn 1024 data)), firstn 1024 data,
   mk_os files
     ((fd, mk_open_file data (length (firstn 1024 data))) :: fd_remove fd t) e).
Proof.
  unfold sys_read. cbn [fs fdt errno].
  rewrite fd_lookup_head, fd_remove_head. reflexivity.
Qed.

Lemma open_success (path : string) (data : list ascii) (w : world) :
  file_at path (fs (os w)) = Some data ->
  open path w =
  (lowest_free (fdt (os w)),
   mk_world
     (mk_os (fs (os w))
            ((lowest_free (fdt (os w)), mk_open_file data 0) :: fdt (os w))
            (errno (os w)))
     (console w)
     (calls w ++ [SysOpen path (lowest_free (fdt (os w)))])).
Proof. intros H. unfold open, sys_open. rewrite H. reflexivity. Qed.

Lemma read_1024_fresh (fd : Z) (data : list ascii) files t e out tr :
  0 <= fd ->
  NaiveFile.read_1024 fd
    (mk_world (mk_os files ((fd, mk_open_file data 0) :: t) e) out tr) =
  (firstn 1024 data,
   mk_world
     (mk_os files
        ((fd, mk_open_file data (length (firstn 1024 data))) :: fd_remove fd t) e)
     out
     (tr ++ [SysRead fd 1024 (Z.of_nat (length (firstn 1024 data)))])).
Proof.
  intros Hfd. unfold NaiveFile.read_1024, read. cbn [os console calls].
  replace (fd <? 0) with false by (symmetry; apply Z.ltb_ge; exact Hfd).
  rewrite sys_read_fresh.
  assert (Hlen : (length (firstn 1024 data) <= 1024)%nat) by apply firstn_le_length.
  rewrite int_wrap_small by (unfold INT_MIN, INT_MAX; lia).
  destruct (Z.of_nat (length (firstn 1024 data)) <=? 0) eqn:E.
  - apply Z.leb_le in E.
    destruct (firstn 1024 data) as [|c l]; [reflexivity | simpl in E; lia].
  - rewrite Nat2Z.id, firstn_length_app. reflexivity.
Qed.

Lemma dtor_effect_open banner failure (fd : Z) (f : open_file) files t e out tr :
  0 <= fd ->
  dtor_effect banner failure fd
    (mk_world (mk_os files ((fd, f) :: t) e) out tr) =
  mk_world (mk_os files (fd_remove fd t) e) (out ++ banner) (tr ++ [SysClose fd 0]).
Proof.
  intros Hfd. unfold dtor_effect. cbn [os console calls].
  replace (fd >=? 0) with true by (symmetry; apply Z.geb_le; exact Hfd).
  rewrite sys_close_open. cbn [fst snd]. rewrite app_nil_r. reflexivity.
Qed.

Lemma dtor_effect_closed banner failure (fd : Z) files t e out tr :
  0 <= fd ->
  dtor_effect banner failure fd
    (mk_world (mk_os files (fd_remove fd t) e) out tr) =
  mk_world (mk_os files (fd_remove fd t) EBADF)
           (out ++ banner ++ [(Stderr, failure EBADF)])
           (tr ++ [SysClose fd (-1)]).
Proof.
  intros Hfd. unfold dtor_effect. cbn [os console calls].
  replace (fd >=? 0) with true by (symmetry; apply Z.geb_le; exact Hfd).
  rewrite sys_close_closed. reflexivity.
Qed.

(** The article's block is the trace for descriptor 3 and [main.cpp]. *)
Lemma naive_trace_is_readme_trace :
  text_of (naive_trace 3 "main.cpp") = readme_trace.
Proof. reflexivity. Qed.

(** C7, as claimed, fails: even with descriptor 3 and the file name
    [main.cpp], what the first block of [main] writes to the terminal is
    not exactly the block of the article; it holds three more lines. *)
Lemma naive_demo_output_is_not_the_readme_block :
  text_of
    (console_since (snd (boot [("main.cpp"%string, demo_source)]))
       (snd (run (naive_demo (lit "main.cpp"))
                 (boot [("main.cpp"%string, demo_source)]))))
  <> readme_trace.
Proof. vm_compute. discriminate. Qed.

Lemma accidental_copy_prints_size (fd : Z) (w : world) :
  accidental_copy NaiveFile.read_1024 fd w =
  printf (size_line (length (fst (NaiveFile.read_1024 fd w))))
         (snd (NaiveFile.read_1024 fd w)).
Proof.
  unfold accidental_copy, size_line.
  destruct (NaiveFile.read_1024 fd w) as [content w1]. cbn [fst snd].
  destruct (1024 <=? length content)%nat; reflexivity.
Qed.

(** C7, amended. When the file exists, the first block of [main] (one
    [open], one call of [accidental_copy] by value, one more copy) writes
    the trace of the article, for the descriptor that [open] returned and
    the file name, with three more lines: the name of the block before
    it, the size that [accidental_copy] prints after the constructor's
    line, and the line ends after it.  The destructor runs three times on
    the same descriptor; the first [close] returns 0, the second and the
    third return -1 with [Bad file descriptor], each printed to the error
    stream. *)
Theorem naive_demo_prints_documented_trace
    (filename : std_string) (data : list ascii) (st : store) (w : world) :
  file_at (c_str filename) (fs (os w)) = Some data ->
  let fd := lowest_free (fdt (os w)) in
  let n := Nat.min 1024 (length data) in
  let w' := snd (run (naive_demo filename) (st, w)) in
  console_since w w' = naive_demo_output fd (c_str filename) n /\
  calls_since w w' =
    [ SysOpen (c_str filename) fd; SysRead fd 1024 (Z.of_nat n);
      SysClose fd 0; SysClose fd (-1); SysClose fd (-1) ].
Proof.
  intros Hfile. cbv zeta.
  pose proof (lowest_free_nonneg (fdt (os w))) as Hfd.
  set (fd := lowest_free (fdt (os w))) in *.
  assert (Hrun :
    snd (run (naive_demo filename) (st, w)) =
    mk_world
      (mk_os (fs (os w)) (fd_remove fd (fdt (os w))) EBADF)
      (console w ++ naive_demo_output fd (c_str filename) (Nat.min 1024 (length data)))
      (calls w ++
         [ SysOpen (c_str filename) fd;
           SysRead fd 1024 (Z.of_nat (Nat.min 1024 (length data)));
           SysClose fd 0; SysClose fd (-1); SysClose fd (-1) ])).
  { rewrite naive_demo_run. cbv zeta. cbn [snd].
    assert (H1 : NaiveFile.ctor filename (printf ("Naive file wrapper" ++ nl) w) =
      (fd, mk_world
             (mk_os (fs (os w)) ((fd, mk_open_file data 0) :: fdt (os w)) (errno (os w)))
             (console w ++ [(Stdout, ("Naive file wrapper" ++ nl)%string);
                            (Stdout, ("(fd " ++ fmt_i fd ++ ") open " ++ (c_str filename) ++ nl)%string)])
             (calls w ++ [SysOpen (c_str filename) fd]))).
    { unfold NaiveFile.ctor.
      rewrite (open_success (c_str filename) data (printf ("Naive file wrapper" ++ nl) w) Hfile).
      unfold printf. cbn [os console calls]. rewrite <- app_assoc. reflexivity. }
    rewrite H1. cbn [fst snd].
    rewrite accidental_copy_prints_size.
    rewrite (read_1024_fresh fd data _ _ _ _ _ Hfd). cbn [fst snd].
    unfold printf at 2. cbn [os console calls].
    rewrite !naive_dtor_effect.
    rewrite (dtor_effect_open _ _ fd _ _ _ _ _ _ Hfd).
    rewrite (dtor_effect_closed _ _ fd _ _ _ _ _ Hfd).
    rewrite (dtor_effect_closed _ _ fd _ _ _ _ _ Hfd).
    unfold printf. cbn [os console calls].
    rewrite length_firstn, fd_remove_idem. rewrite <- !app_assoc. reflexivity. }
  rewrite Hrun. unfold console_since, calls_since. cbn [console calls].
  split; apply skipn_length_app.
Qed.

(** The amended C7 in a directory that holds [main.cpp], with the
    descriptors 0, 1 and 2 in use. *)
Lemma naive_demo_main_cpp_witness :
  file_at "main.cpp" [("main.cpp"%string, demo_source)] = Some demo_source /\
  console_since (snd (boot [("main.cpp"%string, demo_source)]))
    (snd (run (naive_demo (lit "main.cpp")) (boot [("main.cpp"%string, demo_source)])))
  = naive_demo_output 3 "main.cpp" 24 /\
  calls_since (snd (boot [("main.cpp"%string, demo_source)]))
    (snd (run (naive_demo (lit "main.cpp")) (boot [("main.cpp"%string, demo_source)])))
  = [ SysOpen "main.cpp" 3; SysRead 3 1024 24;
      SysClose 3 0; SysClose 3 (-1); SysClose 3 (-1) ].
Proof.
  split; [reflexivity|].
  exact (naive_demo_prints_documented_trace
           (lit "main.cpp") demo_source []
           (snd (boot [("main.cpp"%string, demo_source)])) eq_refl).
Defined.

(** ** The two programs on a concrete run *)

(** [main] of modern-cpp in a directory that holds [main.cpp]. *)
Example main_terminal :
  terminal (snd (run (main (lit "main.cpp")) (boot [("main.cpp"%string, demo_source)])))
  = ("Naive file wrapper" ++ nl ++
     "(fd 3) open main.cpp" ++ nl ++
     "File is 24 bytes long" ++ nl ++
     "(fd 3) ~NaiveFile closing" ++ nl ++
     "(fd 3) ~NaiveFile closing" ++ nl ++
     "  (fd 3) Couldn't close file: 'Bad file descriptor'" ++ nl ++
     "(fd 3) ~NaiveFile closing" ++ nl ++
     "  (fd 3) Couldn't close file: 'Bad file descriptor'" ++ nl ++
     nl ++ nl ++
     "Safe file wrapper" ++ nl ++
     "~SafeFile closing file" ++ nl ++
     nl ++ nl ++
     "File file wrapper" ++ nl ++
     nl ++ nl)%string.
Proof. vm_compute. reflexivity. Qed.

(** [main] of smart-ptr prints what the article shows. *)
Example smart_main_stdout :
  option_map (fun r => SmartMain.stdout_text (snd r)) (SmartMain.main Mem.empty)
  = Some ("Good count" ++ nl ++
          "'Hello shared world!' contains 3 'l's." ++ nl ++ nl ++
          "Bad count" ++ nl ++
          "'He**o shared wor*d!' contains 3 'l's." ++ nl ++ nl ++
          "Port 80 is configured" ++ nl ++
          "Port 81 is configured" ++ nl)%string.
Proof. vm_compute. reflexivity. Qed.

(** * Further properties of the examples *)

Import Scenarios.

(** ** [open] returns a descriptor that is not in use *)

Lemma existsb_key (n : Z) (t : list (Z * open_file)) :
  existsb (fun e => fst e =? n) t = true <-> In n (map fst t).
Proof.
  rewrite existsb_exists, in_map_iff. split.
  - intros [e [He Hk]]. exists e. apply Z.eqb_eq in Hk. split; assumption.
  - intros [e [Hk He]]. exists e. split; [exact He | apply Z.eqb_eq; exact Hk].
Qed.

Lemma NoDup_map_of_nat (l : list nat) : NoDup l -> NoDup (map Z.of_nat l).
Proof.
  induction 1 as [|x l Hx _ IH]; cbn [map]; constructor; [|exact IH].
  intros Hin. apply in_map_iff in Hin. destruct Hin as [y [Hy Hin]].
  apply Nat2Z.inj in Hy. subst y. exact (Hx Hin).
Qed.

Lemma first_free_fresh (t : list (Z * open_file)) :
  forall (fuel k : nat),
    (fuel + k = length t)%nat ->
    incl (map Z.of_nat (seq 0 k)) (map fst t) ->
    ~ In (first_free fuel (Z.of_nat k) t) (map fst t).
Proof.
  induction fuel as [|fuel IH]; intros k Hlen Hincl.
  - cbn [first_free]. intros Hin.
    assert (Hnd : NoDup (map Z.of_nat (seq 0 k))).
    { apply NoDup_map_of_nat, seq_NoDup. }
    assert (Hback : incl (map fst t) (map Z.of_nat (seq 0 k))).
    { apply NoDup_length_incl; [exact Hnd | | exact Hincl].
      rewrite !length_map, length_seq. simpl in Hlen. lia. }
    apply Hback in Hin. apply in_map_iff in Hin.
    destruct Hin as [i [Hi Hseq]]. apply in_seq in Hseq.
    apply Nat2Z.inj in Hi. lia.
  - cbn [first_free].
    destruct (existsb (fun e => fst e =? Z.of_nat k) t) eqn:E.
    + replace (Z.of_nat k + 1) with (Z.of_nat (S k)) by lia.
      apply IH; [lia|].
      rewrite seq_S, map_app. cbn [map Nat.add].
      apply incl_app; [exact Hincl|].
      intros x [<-|[]]. apply existsb_key. exact E.
    + intros Hin. apply existsb_key in Hin. congruence.
Qed.

Lemma lowest_free_not_in_use (t : list (Z * open_file)) :
  ~ In (lowest_free t) (map fst t).
Proof.
  unfold lowest_free.
  apply (first_free_fresh t (length t) 0); [lia|].
  intros x [].
Qed.

Lemma fd_remove_absent (fd : Z) (t : list (Z * open_file)) :
  ~ In fd (map fst t) -> fd_remove fd t = t.
Proof.
  unfold fd_remove. induction t as [|[k f] t IH]; intros Hn; [reflexivity|].
  cbn [filter fst]. cbn [map fst In] in Hn.
  destruct (k =? fd) eqn:E.
  - apply Z.eqb_eq in E. tauto.
  - cbn [negb]. f_equal. apply IH. tauto.
Qed.

Lemma fd_lookup_absent (fd : Z) (t : list (Z * open_file)) :
  ~ In fd (map fst t) -> fd_lookup fd t = None.
Proof.
  intros Hn. rewrite <- (fd_remove_absent fd t Hn). apply fd_lookup_removed.
Qed.

Lemma fd_lookup_remove_other (u v : Z) (t : list (Z * open_file)) :
  u <> v -> fd_lookup u (fd_remove v t) = fd_lookup u t.
Proof.
  intros Hne. unfold fd_lookup, fd_remove.
  induction t as [|[k f] t IH]; [reflexivity|].
  cbn [filter fst find].
  destruct (k =? v) eqn:Ev; cbn [negb].
  - apply Z.eqb_eq in Ev. subst k.
    replace (v =? u) with false by (symmetry; apply Z.eqb_neq; congruence).
    exact IH.
  - cbn [find fst]. destruct (k =? u); [reflexivity | exact IH].
Qed.

(** ** No example leaves a descriptor open *)

Lemma fd_lookup_none_remove (fd : Z) (t : list (Z * open_file)) :
  fd_lookup fd t = None -> fd_remove fd t = t.
Proof.
  unfold fd_lookup, fd_remove. induction t as [|[k f] t IH]; [reflexivity|].
  cbn [find filter fst]. destruct (k =? fd); cbn [negb]; [discriminate|].
  intros H. f_equal. exact (IH H).
Qed.

Lemma dtor_effect_files banner failure (fd : Z) (w : world) :
  fs (os (dtor_effect banner failure fd w)) = fs (os w) /\
  fdt (os (dtor_effect banner failure fd w)) =
    (if fd >=? 0 then fd_remove fd (fdt (os w)) else fdt (os w)).
Proof.
  unfold dtor_effect. destruct (fd >=? 0); [|split; reflexivity].
  cbn [os]. unfold sys_close.
  destruct (fd_lookup fd (fdt (os w))) eqn:E; cbn [snd fs fdt].
  - split; reflexivity.
  - split; [reflexivity|]. symmetry. apply fd_lookup_none_remove. exact E.
Qed.

Lemma read_1024_files (fd : Z) (w : world) :
  fs (os (snd (NaiveFile.read_1024 fd w))) = fs (os w) /\
  fd_remove fd (fdt (os (snd (NaiveFile.read_1024 fd w)))) = fd_remove fd (fdt (os w)) /\
  ((fd <? 0) = true -> fdt (os (snd (NaiveFile.read_1024 fd w))) = fdt (os w)).
Proof.
  unfold NaiveFile.read_1024, read.
  destruct (fd <? 0); [repeat split; reflexivity|].
  unfold sys_read.
  destruct (fd_lookup fd (fdt (os w))) as [f|] eqn:E.
  - destruct (int_wrap _ <=? 0); cbn [snd os fs fdt];
      (split; [reflexivity|]; split; [|discriminate]);
      rewrite fd_remove_head; apply fd_remove_idem.
  - destruct (int_wrap (-1) <=? 0); cbn [snd os fs fdt];
      repeat split; discriminate.
Qed.

Lemma accidental_copy_os (fd : Z) (w : world) :
  os (accidental_copy NaiveFile.read_1024 fd w) = os (snd (NaiveFile.read_1024 fd w)).
Proof. rewrite accidental_copy_prints_size. reflexivity. Qed.

Lemma open_files (path : string) (w : world) :
  fs (os (snd (open path w))) = fs (os w) /\
  (if fst (open path w) >=? 0
   then fd_remove (fst (open path w)) (fdt (os (snd (open path w))))
   else fdt (os (snd (open path w)))) = fdt (os w).
Proof.
  unfold open, sys_open.
  destruct (file_at path (fs (os w))) as [data|]; cbn [fst snd os fs fdt].
  - split; [reflexivity|].
    replace (lowest_free (fdt (os w)) >=? 0) with true
      by (symmetry; apply Z.geb_le, lowest_free_nonneg).
    rewrite fd_remove_head. apply fd_remove_absent, lowest_free_not_in_use.
  - split; reflexivity.
Qed.

Lemma naive_ctor_open (path : std_string) (w : world) :
  fst (NaiveFile.ctor path w) = fst (open (c_str path) w) /\
  os (snd (NaiveFile.ctor path w)) = os (snd (open (c_str path) w)).
Proof.
  unfold NaiveFile.ctor. destruct (open (c_str path) w). split; reflexivity.
Qed.

Lemma safe_demo_files (filename : std_string) (st : store) (w : world) :
  fs (os (snd (run (safe_demo filename) (st, w)))) = fs (os w) /\
  fdt (os (snd (run (safe_demo filename) (st, w)))) = fdt (os w).
Proof.
  rewrite safe_demo_run. cbv zeta. cbn [snd]. unfold SafeFile.ctor.
  rewrite safe_dtor_effect.
  change (os (printf (nl ++ nl) ?x)) with (os x).
  set (w0 := printf ("Safe file wrapper" ++ nl) w).
  destruct (dtor_effect_files
              [(Stdout, ("~SafeFile closing file" ++ nl)%string)] close_failure
              (fst (open (c_str filename) w0)) (snd (open (c_str filename) w0)))
    as [H1 H2].
  destruct (open_files (c_str filename) w0) as [H3 H4].
  rewrite H1, H2, H3. split; [reflexivity|].
  destruct (fst (open (c_str filename) w0) >=? 0); exact H4.
Qed.

Lemma final_demo_files (filename : std_string) (st : store) (w : world) :
  fs (os (snd (run (final_demo filename) (st, w)))) = fs (os w) /\
  fdt (os (snd (run (final_demo filename) (st, w)))) = fdt (os w).
Proof.
  rewrite final_demo_run. cbv zeta. cbn [snd]. unfold FileWrapper.ctor.
  rewrite final_dtor_effect.
  change (os (printf (nl ++ nl) ?x)) with (os x).
  set (w0 := printf ("File file wrapper" ++ nl) w).
  destruct (dtor_effect_files [] close_failure
              (fst (open (c_str filename) w0)) (snd (open (c_str filename) w0)))
    as [H1 H2].
  destruct (open_files (c_str filename) w0) as [H3 H4].
  rewrite H1, H2, H3. split; [reflexivity|].
  destruct (fst (open (c_str filename) w0) >=? 0); exact H4.
Qed.

Lemma naive_demo_files (filename : std_string) (st : store) (w : world) :
  fs (os (snd (run (naive_demo filename) (st, w)))) = fs (os w) /\
  fdt (os (snd (run (naive_demo filename) (st, w)))) = fdt (os w).
Proof.
  rewrite naive_demo_run. cbv zeta. cbn [snd].
  rewrite !naive_dtor_effect.
  change (os (printf (nl ++ nl) ?x)) with (os x).
  set (w0 := printf ("Naive file wrapper" ++ nl) w).
  destruct (naive_ctor_open filename w0) as [Hfd Hos].
  destruct (open_files (c_str filename) w0) as [H3 H4].
  rewrite <- Hos in H3. rewrite <- Hfd, <- Hos in H4.
  set (fd := fst (NaiveFile.ctor filename w0)) in *.
  set (w1 := snd (NaiveFile.ctor filename w0)) in *.
  set (w2 := accidental_copy NaiveFile.read_1024 fd w1).
  destruct (read_1024_files fd w1) as (R1 & R2 & R3).
  rewrite <- accidental_copy_os in R1, R2, R3. fold w2 in R1, R2, R3.
  match goal with
  | |- context [dtor_effect ?b ?f fd w2] =>
      destruct (dtor_effect_files b f fd w2) as [Ha1 Hb1];
      set (w3 := dtor_effect b f fd w2) in *;
      destruct (dtor_effect_files b f fd w3) as [Ha2 Hb2];
      set (w4 := dtor_effect b f fd w3) in *;
      destruct (dtor_effect_files b f fd w4) as [Ha3 Hb3];
      set (w5 := dtor_effect b f fd w4) in *
  end.
  split.
  - rewrite Ha3, Ha2, Ha1, R1. exact H3.
  - rewrite Hb3, Hb2, Hb1.
    destruct (fd >=? 0) eqn:E.
    + rewrite !fd_remove_idem, R2. exact H4.
    + rewrite R3; [exact H4|]. rewrite ltb_0_geb_0, E. reflexivity.
Qed.

Lemma main_worlds (filename : std_string) (st : store) (w : world) :
  let w1 := snd (run (naive_demo filename) (st, w)) in
  let w2 := snd (run (safe_demo filename) (st, w1)) in
  run (main filename) (st, w) = run (final_demo filename) (st, w2).
Proof.
  cbv zeta. unfold main. rewrite !run_app.
  rewrite (surjective_pairing (run (naive_demo filename) (st, w))).
  rewrite naive_demo_store.
  rewrite (surjective_pairing
             (run (safe_demo filename)
                  (st, snd (run (naive_demo filename) (st, w))))).
  rewrite safe_demo_store. reflexivity.
Qed.

(** X1. Every block of [main], and [main] as a whole, leaves the files
    and the descriptor table exactly as it found them, from any world and
    whether or not the file can be opened: no example leaks a descriptor,
    the [NaiveFile] block included (its first destructor closes the
    descriptor, the other two fail). *)
Theorem examples_leave_descriptor_table_unchanged
    (filename : std_string) (st : store) (w : world) :
  let kept (p : program) :=
    fs (os (snd (run p (st, w)))) = fs (os w) /\
    fdt (os (snd (run p (st, w)))) = fdt (os w) in
  kept (naive_demo filename) /\ kept (safe_demo filename) /\
  kept (final_demo filename) /\ kept (main filename).
Proof.
  cbv zeta.
  pose proof (main_worlds filename st w) as Hm. cbv zeta in Hm.
  set (w1 := snd (run (naive_demo filename) (st, w))) in *.
  set (w2 := snd (run (safe_demo filename) (st, w1))) in *.
  destruct (naive_demo_files filename st w) as [N1 N2].
  destruct (safe_demo_files filename st w1) as [S1 S2].
  destruct (final_demo_files filename st w2) as [F1 F2].
  fold w1 in N1, N2. fold w2 in S1, S2.
  repeat apply conj.
  - exact N1.
  - exact N2.
  - exact (proj1 (safe_demo_files filename st w)).
  - exact (proj2 (safe_demo_files filename st w)).
  - exact (proj1 (final_demo_files filename st w)).
  - exact (proj2 (final_demo_files filename st w)).
  - rewrite Hm. rewrite F1, S1. exact N1.
  - rewrite Hm. rewrite F2, S2. exact N2.
Qed.

Lemma sys_open_fst_ext (path : string) (o o' : os_state) :
  fs o = fs o' -> fdt o = fdt o' -> fst (sys_open path o) = fst (sys_open path o').
Proof.
  intros Hf Ht. unfold sys_open. rewrite Hf, Ht.
  destruct (file_at path (fs o')); reflexivity.
Qed.

Lemma open_results_three_blocks (p : string) (fd1 fd2 fd3 r r1 r2 r3 s f : Z) :
  open_results
    ((SysOpen p fd1 ::
        (if fd1 >=? 0
         then [SysRead fd1 1024 r; SysClose fd1 r1; SysClose fd1 r2; SysClose fd1 r3]
         else [])) ++
     (SysOpen p fd2 :: (if fd2 >=? 0 then [SysClose fd2 s] else [])) ++
     (SysOpen p fd3 :: (if fd3 >=? 0 then [SysClose fd3 f] else []))) =
  [fd1; fd2; fd3].
Proof.
  destruct (fd1 >=? 0), (fd2 >=? 0), (fd3 >=? 0); reflexivity.
Qed.

(** X2. The three [open] calls of [main] return the same value: each
    block has released the descriptor it got, so the next block is given
    the same number again (or all three calls fail). *)
Theorem main_opens_same_descriptor_thrice
    (filename : std_string) (st : store) (w : world) :
  let fd := fst (sys_open (c_str filename) (os w)) in
  open_results (calls_since w (snd (run (main filename) (st, w)))) = [fd; fd; fd].
Proof.
  cbv zeta. rewrite (main_worlds filename st w). cbv zeta.
  set (w1 := snd (run (naive_demo filename) (st, w))).
  set (w2 := snd (run (safe_demo filename) (st, w1))).
  destruct (naive_demo_calls filename st w) as (q & q1 & q2 & q3 & Hn).
  destruct (safe_demo_calls filename st w1) as [r Hs].
  destruct (final_demo_calls filename st w2) as [r' Hf].
  cbv zeta in Hn, Hs, Hf. fold w1 in Hn. fold w2 in Hs.
  assert (E1 : fst (sys_open (c_str filename) (os w1)) =
               fst (sys_open (c_str filename) (os w))).
  { apply sys_open_fst_ext;
      [exact (proj1 (naive_demo_files filename st w))
      |exact (proj2 (naive_demo_files filename st w))]. }
  assert (E2 : fst (sys_open (c_str filename) (os w2)) =
               fst (sys_open (c_str filename) (os w))).
  { rewrite <- E1. apply sys_open_fst_ext;
      [exact (proj1 (safe_demo_files filename st w1))
      |exact (proj2 (safe_demo_files filename st w1))]. }
  unfold calls_since. rewrite Hf, Hs, Hn. rewrite <- !app_assoc.
  rewrite skipn_length_app.
  rewrite (open_results_three_blocks (c_str filename)), E1, E2. reflexivity.
Qed.

(** ** Reading through a descriptor *)

Lemma read_1024_open (fd : Z) (f : open_file) (w : world) :
  0 <= fd ->
  fd_lookup fd (fdt (os w)) = Some f ->
  let chunk := firstn 1024 (skipn (of_pos f) (of_data f)) in
  NaiveFile.read_1024 fd w =
  (chunk,
   mk_world
     (mk_os (fs (os w))
        ((fd, mk_open_file (of_data f) (of_pos f + length chunk)) ::
           fd_remove fd (fdt (os w)))
        (errno (os w)))
     (console w)
     (calls w ++ [SysRead fd 1024 (Z.of_nat (length chunk))])).
Proof.
  intros Hfd Hf. cbv zeta. unfold NaiveFile.read_1024, read, sys_read.
  replace (fd <? 0) with false by (symmetry; apply Z.ltb_ge; exact Hfd).
  rewrite Hf.
  set (chunk := firstn 1024 (skipn (of_pos f) (of_data f))).
  assert (Hlen : (length chunk <= 1024)%nat) by apply firstn_le_length.
  rewrite int_wrap_small by (unfold INT_MIN, INT_MAX; lia).
  destruct (Z.of_nat (length chunk) <=? 0) eqn:E.
  - apply Z.leb_le in E.
    destruct chunk as [|c l]; [reflexivity | simpl in E; lia].
  - rewrite Nat2Z.id, firstn_length_app. reflexivity.
Qed.

Lemma read_1024_closed (fd : Z) (w : world) :
  0 <= fd ->
  fd_lookup fd (fdt (os w)) = None ->
  NaiveFile.read_1024 fd w =
  ([], mk_world (mk_os (fs (os w)) (fdt (os w)) EBADF) (console w)
                (calls w ++ [SysRead fd 1024 (-1)])).
Proof.
  intros Hfd Hf. unfold NaiveFile.read_1024, read, sys_read.
  replace (fd <? 0) with false by (symmetry; apply Z.ltb_ge; exact Hfd).
  rewrite Hf. reflexivity.
Qed.

Lemma firstn_add_skipn {A : Type} (n m : nat) (l : list A) :
  firstn n l ++ firstn m (skipn n l) = firstn (n + m) l.
Proof.
  revert l. induction n as [|n IH]; intros l; [reflexivity|].
  destruct l as [|x l]; cbn [firstn skipn Nat.add app].
  - destruct m; reflexivity.
  - f_equal. apply IH.
Qed.

Lemma skipn_past_chunk {A : Type} (n pos : nat) (data : list A) :
  skipn (pos + length (firstn n (skipn pos data))) data = skipn n (skipn pos data).
Proof.
  rewrite Nat.add_comm, <- skipn_skipn. set (rest := skipn pos data).
  rewrite length_firstn.
  destruct (Nat.le_ge_cases n (length rest)) as [H|H].
  - rewrite Nat.min_l by exact H. reflexivity.
  - rewrite Nat.min_r by exact H.
    rewrite skipn_all. symmetry. apply skipn_all2. exact H.
Qed.

(** X3. [read_1024] is [const] but not repeatable: on an open descriptor
    two calls in a row return the next two chunks of at most 1024 bytes
    of the file, which together are its next 2048 bytes at most. *)
Theorem read_1024_twice_reads_consecutive_chunks
    (fd : Z) (f : open_file) (w : world) :
  0 <= fd ->
  fd_lookup fd (fdt (os w)) = Some f ->
  let rest := skipn (of_pos f) (of_data f) in
  let first := NaiveFile.read_1024 fd w in
  let second := NaiveFile.read_1024 fd (snd first) in
  fst first = firstn 1024 rest /\
  fst second = firstn 1024 (skipn 1024 rest) /\
  fst first ++ fst second = firstn 2048 rest.
Proof.
  intros Hfd Hf. cbv zeta.
  rewrite (read_1024_open fd f w Hfd Hf). cbv zeta. cbn [fst snd].
  match goal with
  | |- context [NaiveFile.read_1024 fd ?w1] =>
      rewrite (read_1024_open fd _ w1 Hfd (fd_lookup_head fd _ _))
  end.
  cbv zeta. cbn [fst snd of_data of_pos].
  rewrite skipn_past_chunk.
  repeat split. apply (firstn_add_skipn 1024 1024).
Qed.

(** ** What [accidental_copy] prints *)

Lemma accidental_copy_console (fd : Z) (w : world) :
  console_since w (accidental_copy NaiveFile.read_1024 fd w) =
  [(Stdout, size_line (length (fst (NaiveFile.read_1024 fd w))))].
Proof.
  rewrite accidental_copy_prints_size. unfold console_since, printf.
  cbn [console].
  replace (console (snd (NaiveFile.read_1024 fd w))) with (console w).
  - apply skipn_length_app.
  - unfold NaiveFile.read_1024, read.
    destruct (fd <? 0); [reflexivity|].
    destruct (sys_read fd 1024 (os w)) as [[r c] o].
    destruct (int_wrap r <=? 0); reflexivity.
Qed.

(** X4. On an open descriptor [accidental_copy] prints one line: the
    number of bytes left in the file when fewer than 1024 are left, and
    [File is bigger than 1KB] otherwise, so also when exactly 1024 bytes
    are left. *)
Theorem accidental_copy_reports_1024_bytes_as_bigger
    (fd : Z) (f : open_file) (w : world) :
  0 <= fd ->
  fd_lookup fd (fdt (os w)) = Some f ->
  let remaining := length (skipn (of_pos f) (of_data f)) in
  console_since w (accidental_copy NaiveFile.read_1024 fd w) =
  [(Stdout,
    if (remaining <? 1024)%nat
    then ("File is " ++ fmt_zu remaining ++ " bytes long" ++ nl)%string
    else ("File is bigger than 1KB" ++ nl)%string)].
Proof.
  intros Hfd Hf. cbv zeta. rewrite accidental_copy_console.
  rewrite (read_1024_open fd f w Hfd Hf). cbv zeta. cbn [fst].
  rewrite length_firstn. unfold size_line.
  set (remaining := length (skipn (of_pos f) (of_data f))).
  destruct (remaining <? 1024)%nat eqn:E.
  - apply Nat.ltb_lt in E. rewrite Nat.min_r by lia.
    replace (1024 <=? remaining)%nat with false
      by (symmetry; apply Nat.leb_gt; exact E).
    reflexivity.
  - apply Nat.ltb_ge in E. rewrite Nat.min_l by exact E.
    reflexivity.
Qed.

(** X5. [accidental_copy] cannot tell a failure from an empty file: for
    a wrapper whose [open] failed ([fd < 0]) and for a descriptor that is
    not open (the [read] fails) it prints [File is 0 bytes long]. *)
Theorem accidental_copy_reports_failure_as_empty_file (fd : Z) (w : world) :
  fd < 0 \/ fd_lookup fd (fdt (os w)) = None ->
  console_since w (accidental_copy NaiveFile.read_1024 fd w) =
  [(Stdout, ("File is 0 bytes long" ++ nl)%string)].
Proof.
  intros H. rewrite accidental_copy_console.
  replace (fst (NaiveFile.read_1024 fd w)) with (@nil ascii); [reflexivity|].
  destruct (Z.lt_ge_cases fd 0) as [Hneg|Hpos].
  - unfold NaiveFile.read_1024.
    replace (fd <? 0) with true by (symmetry; apply Z.ltb_lt; exact Hneg).
    reflexivity.
  - destruct H as [H|H]; [lia|].
    rewrite (read_1024_closed fd w Hpos H). reflexivity.
Qed.

(** ** The original after [accidental_copy] *)

(** X6. After [accidental_copy(naive_file)] has returned, [naive_file]
    still holds the descriptor [>= 0] that [open] returned, but the copy's
    destructor has closed it: [read_1024] on the original calls [read],
    which fails with [EBADF], and returns the empty string. *)
Theorem original_cannot_read_after_accidental_copy
    (filename : std_string) (data : list ascii) (w : world) :
  file_at (c_str filename) (fs (os w)) = Some data ->
  let s := run (until_copy_returned filename) ([], w) in
  let fd := lowest_free (fdt (os w)) in
  fst s = [("naive_file"%string, fd)] /\
  0 <= fd /\
  fst (NaiveFile.read_1024 fd (snd s)) = [] /\
  calls_since (snd s) (snd (NaiveFile.read_1024 fd (snd s))) = [SysRead fd 1024 (-1)] /\
  errno (os (snd (NaiveFile.read_1024 fd (snd s)))) = EBADF.
Proof.
  intros Hfile. cbv zeta.
  pose proof (lowest_free_nonneg (fdt (os w))) as Hfd.
  unfold until_copy_returned, naive_demo. cbn [firstn]. unfold run. cbn [fold_left].
  rewrite say_eq, construct_eq, copy_construct_head, call_on_head, destroy_head.
  cbn [fst snd]. unfold NaiveFile.copy.
  set (w0 := printf ("Naive file wrapper" ++ nl) w).
  assert (Efd : fst (NaiveFile.ctor filename w0) = lowest_free (fdt (os w))).
  { rewrite naive_ctor_fst. unfold w0, sys_open. cbn [os printf].
    rewrite Hfile. reflexivity. }
  rewrite Efd.
  set (fd := lowest_free (fdt (os w))) in *.
  set (w2 := accidental_copy NaiveFile.read_1024 fd (snd (NaiveFile.ctor filename w0))).
  assert (Hclosed : fd_lookup fd (fdt (os (NaiveFile.dtor fd w2))) = None).
  { rewrite naive_dtor_effect.
    match goal with
    | |- context [dtor_effect ?b ?g fd w2] =>
        rewrite (proj2 (dtor_effect_files b g fd w2))
    end.
    replace (fd >=? 0) with true by (symmetry; apply Z.geb_le; exact Hfd).
    apply fd_lookup_removed. }
  rewrite (read_1024_closed fd _ Hfd Hclosed). cbn [fst snd os errno calls].
  repeat split; try exact Hfd.
  unfold calls_since. cbn [calls]. apply skipn_length_app.
Qed.

(** ** Moves followed by destruction *)

Lemma get_remove_other (x y : var) (st : store) :
  x <> y -> get y (remove x st) = get y st.
Proof.
  intros Hne. induction st as [|[z t] st IH]; [reflexivity|].
  cbn [remove get]. destruct (String.eqb x z) eqn:E.
  - apply String.eqb_eq in E. subst z.
    replace (String.eqb y x) with false
      by (symmetry; apply String.eqb_neq; congruence).
    reflexivity.
  - cbn [get]. rewrite IH. reflexivity.
Qed.

Lemma destroy_two (a b : var) (x y : Z) (dtor : Z -> world -> world)
    (st : store) (w : world) :
  a <> b -> get a st = Some x -> get b st = Some y ->
  snd (destroy b dtor (destroy a dtor (st, w))) = dtor y (dtor x w).
Proof.
  intros Hne Ha Hb. unfold destroy at 2. cbn [fst snd]. rewrite Ha.
  unfold destroy. cbn [fst snd].
  rewrite (get_remove_other a b st Hne), Hb. reflexivity.
Qed.

Lemma final_dtor_moved_from (w : world) : FileWrapper.dtor (-1) w = w.
Proof. reflexivity. Qed.

Lemma final_dtor_closed_fds (v : Z) (w : world) :
  closed_fds (calls_since w (FileWrapper.dtor v w)) = if v >=? 0 then [v] else [].
Proof.
  rewrite final_dtor_effect, dtor_effect_calls_since.
  destruct (v >=? 0); reflexivity.
Qed.

Lemma move_ctor_store (this wrapper : var) (v : Z) (st : store) :
  this <> wrapper -> get wrapper st = Some v ->
  get this (FileWrapper.move_ctor this wrapper st) = Some v /\
  get wrapper (FileWrapper.move_ctor this wrapper st) = Some (-1).
Proof.
  intros Hne Hv. unfold FileWrapper.move_ctor. rewrite Hv.
  assert (E : String.eqb wrapper this = false)
    by (apply String.eqb_neq; congruence).
  cbn [set]. rewrite E. cbn [get]. rewrite String.eqb_refl, E.
  split; [reflexivity|]. apply get_set_same with (u := v). exact Hv.
Qed.

Lemma move_assign_store (this wrapper : var) (u v : Z) (st : store) :
  this <> wrapper -> get this st = Some u -> get wrapper st = Some v ->
  get this (FileWrapper.move_assign this wrapper st) = Some v /\
  get wrapper (FileWrapper.move_assign this wrapper st) = Some (-1).
Proof.
  intros Hne Hu Hv. unfold FileWrapper.move_assign. rewrite Hv. split.
  - rewrite get_set_other by congruence.
    apply get_set_same with (u := u). exact Hu.
  - apply get_set_same with (u := v).
    rewrite get_set_other by exact Hne. exact Hv.
Qed.

(** X7. After a move construction, destroying the new object and the
    moved-from object, in either order, calls [close] exactly once on the
    descriptor that was moved (and not at all if it was negative). *)
Theorem move_constructed_descriptor_closed_once
    (this wrapper : var) (v : Z) (st : store) (w : world) :
  this <> wrapper ->
  get wrapper st = Some v ->
  let st1 := FileWrapper.move_ctor this wrapper st in
  let closed (s : state) := closed_fds (calls_since w (snd s)) in
  closed (destroy wrapper FileWrapper.dtor (destroy this FileWrapper.dtor (st1, w))) =
    (if v >=? 0 then [v] else []) /\
  closed (destroy this FileWrapper.dtor (destroy wrapper FileWrapper.dtor (st1, w))) =
    (if v >=? 0 then [v] else []).
Proof.
  intros Hne Hv. cbv zeta.
  destruct (move_ctor_store this wrapper v st Hne Hv) as [Ht Hw].
  rewrite (destroy_two this wrapper v (-1) _ _ w Hne Ht Hw).
  rewrite (destroy_two wrapper this (-1) v _ _ w (not_eq_sym Hne) Hw Ht).
  rewrite !final_dtor_moved_from.
  split; apply final_dtor_closed_fds.
Qed.

(** X8. Move assignment drops the descriptor [u] that the destination
    held without closing it: after [this = std::move(wrapper)] and the
    destruction of both objects, in either order, the only [close] is the
    one on the descriptor [v] that was moved, and a different descriptor
    [u] is in the descriptor table exactly as before. *)
Theorem move_assign_never_closes_old_descriptor
    (this wrapper : var) (u v : Z) (st : store) (w : world) :
  this <> wrapper ->
  get this st = Some u ->
  get wrapper st = Some v ->
  let st1 := FileWrapper.move_assign this wrapper st in
  let w1 := snd (destroy this FileWrapper.dtor
                   (destroy wrapper FileWrapper.dtor (st1, w))) in
  let w2 := snd (destroy wrapper FileWrapper.dtor
                   (destroy this FileWrapper.dtor (st1, w))) in
  w1 = w2 /\
  closed_fds (calls_since w w1) = (if v >=? 0 then [v] else []) /\
  (u <> v -> fd_lookup u (fdt (os w1)) = fd_lookup u (fdt (os w))).
Proof.
  intros Hne Hu Hv. cbv zeta.
  destruct (move_assign_store this wrapper u v st Hne Hu Hv) as [Ht Hw].
  rewrite (destroy_two this wrapper v (-1) _ _ w Hne Ht Hw).
  rewrite (destroy_two wrapper this (-1) v _ _ w (not_eq_sym Hne) Hw Ht).
  rewrite !final_dtor_moved_from.
  split; [reflexivity|]. split; [apply final_dtor_closed_fds|].
  intros Huv. rewrite final_dtor_effect.
  rewrite (proj2 (dtor_effect_files [] close_failure v w)).
  destruct (v >=? 0); [|reflexivity].
  apply fd_lookup_remove_other. exact Huv.
Qed.

(** ** A wrapper on a file that cannot be opened *)



Lemma os_eta (o : os_state) : mk_os (fs o) (fdt o) (errno o) = o.
Proof. destruct o; reflexivity. Qed.

(** X10. The life of a [FileWrapper] or a [SafeFile] on a file that
    exists is [open], [read], [close], each once and the [close] with
    result 0; [read_1024] returns the first 1024 bytes of the file at
    most, and the operating system ends exactly as it started, [errno]
    included. *)
Theorem wrapper_lifetime_restores_os
    (path : std_string) (data : list ascii) (w : world) :
  file_at (c_str path) (fs (os w)) = Some data ->
  let fd := lowest_free (fdt (os w)) in
  let tr := [ SysOpen (c_str path) fd;
              SysRead fd 1024 (Z.of_nat (Nat.min 1024 (length data)));
              SysClose fd 0 ] in
  lifetime FileWrapper.ctor FileWrapper.read_1024 FileWrapper.dtor path w =
    (firstn 1024 data, mk_world (os w) (console w) (calls w ++ tr)) /\
  lifetime SafeFile.ctor SafeFile.read_1024 SafeFile.dtor path w =
    (firstn 1024 data,
     mk_world (os w)
       (console w ++ [(Stdout, ("~SafeFile closing file" ++ nl)%string)])
       (calls w ++ tr)).
Proof.
  intros Hfile. cbv zeta.
  pose proof (lowest_free_nonneg (fdt (os w))) as Hfd.
  pose proof (lowest_free_not_in_use (fdt (os w))) as Hfresh.
  set (fd := lowest_free (fdt (os w))) in *.
  unfold lifetime, FileWrapper.ctor, SafeFile.ctor.
  rewrite final_read_1024_eq, safe_read_1024_eq.
  rewrite (open_success (c_str path) data w Hfile). fold fd.
  rewrite (read_1024_fresh fd data _ _ _ _ _ Hfd).
  rewrite final_dtor_effect, safe_dtor_effect.
  rewrite !(dtor_effect_open _ _ fd _ _ _ _ _ _ Hfd).
  rewrite fd_remove_idem, (fd_remove_absent fd _ Hfresh), os_eta.
  rewrite length_firstn, app_nil_r, <- !app_assoc.
  split; reflexivity.
Qed.

(** X11. For [int] arguments whose sum is an [int], [add] returns the
    sum, [sub] undoes [add], and [add] is commutative. *)
Theorem sub_undoes_add (a b : Z) :
  is_int a -> is_int b -> is_int (a + b) ->
  BuildProcess.add a b = a + b /\
  BuildProcess.sub (BuildProcess.add a b) b = a /\
  BuildProcess.add b a = BuildProcess.add a b.
Proof.
  intros Ha Hb Hab. unfold BuildProcess.add, BuildProcess.sub.
  replace (b + a) with (a + b) by lia.
  rewrite (int_wrap_small (a + b)) by exact Hab.
  replace (a + b - b) with a by lia.
  rewrite (int_wrap_small a) by exact Ha.
  repeat split.
Qed.

(** ** The properties above at concrete inputs *)

Lemma read_1024_twice_witness :
  fst (NaiveFile.read_1024 3 (open_on kilobyte_and_tail)) = kilobyte /\
  fst (NaiveFile.read_1024 3 (snd (NaiveFile.read_1024 3 (open_on kilobyte_and_tail))))
    = lit "tail" /\
  fst (NaiveFile.read_1024 3 (open_on kilobyte_and_tail)) ++
  fst (NaiveFile.read_1024 3 (snd (NaiveFile.read_1024 3 (open_on kilobyte_and_tail))))
    = kilobyte_and_tail.
Proof.
  exact (read_1024_twice_reads_consecutive_chunks
           3 (mk_open_file kilobyte_and_tail 0) (open_on kilobyte_and_tail)
           ltac:(lia) eq_refl).
Defined.

Lemma accidental_copy_kilobyte_witness :
  console_since (open_on kilobyte)
    (accidental_copy NaiveFile.read_1024 3 (open_on kilobyte)) =
  [(Stdout, ("File is bigger than 1KB" ++ nl)%string)].
Proof.
  exact (accidental_copy_reports_1024_bytes_as_bigger
           3 (mk_open_file kilobyte 0) (open_on kilobyte) ltac:(lia) eq_refl).
Defined.

Lemma accidental_copy_failure_witness :
  console_since demo_world (accidental_copy NaiveFile.read_1024 (-1) demo_world) =
  [(Stdout, ("File is 0 bytes long" ++ nl)%string)].
Proof.
  exact (accidental_copy_reports_failure_as_empty_file
           (-1) demo_world (@or_introl (-1 < 0) _ eq_refl)).
Defined.

Lemma original_cannot_read_witness :
  file_at "main.cpp" (fs (os demo_world)) = Some demo_source /\
  fst (run (until_copy_returned (lit "main.cpp")) ([], demo_world)) =
    [("naive_file"%string, 3)] /\
  fst (NaiveFile.read_1024 3
         (snd (run (until_copy_returned (lit "main.cpp")) ([], demo_world)))) = [] /\
  errno (os (snd (NaiveFile.read_1024 3
                    (snd (run (until_copy_returned (lit "main.cpp")) ([], demo_world))))))
    = EBADF.
Proof.
  split; [reflexivity|].
  pose proof (original_cannot_read_after_accidental_copy
                (lit "main.cpp") demo_source demo_world eq_refl) as H.
  cbv zeta in H. destruct H as (H1 & _ & H3 & _ & H5).
  split; [exact H1|]. split; [exact H3 | exact H5].
Defined.

Lemma move_constructed_witness :
  closed_fds
    (calls_since (open_on demo_source)
       (snd (destroy "file"%string FileWrapper.dtor
               (destroy "file2"%string FileWrapper.dtor
                  (FileWrapper.move_ctor "file2"%string "file"%string
                     [("file"%string, 3)], open_on demo_source))))) = [3] /\
  closed_fds
    (calls_since (open_on demo_source)
       (snd (destroy "file2"%string FileWrapper.dtor
               (destroy "file"%string FileWrapper.dtor
                  (FileWrapper.move_ctor "file2"%string "file"%string
                     [("file"%string, 3)], open_on demo_source))))) = [3].
Proof.
  exact (move_constructed_descriptor_closed_once
           "file2"%string "file"%string 3 [("file"%string, 3)] (open_on demo_source)
           ltac:(discriminate) eq_refl).
Defined.

Lemma move_assign_leak_witness :
  closed_fds
    (calls_since two_open
       (snd (destroy "file2"%string FileWrapper.dtor
               (destroy "file"%string FileWrapper.dtor
                  (FileWrapper.move_assign "file2"%string "file"%string
                     [("file2"%string, 4); ("file"%string, 3)], two_open))))) = [3] /\
  fd_lookup 4
    (fdt (os (snd (destroy "file2"%string FileWrapper.dtor
                     (destroy "file"%string FileWrapper.dtor
                        (FileWrapper.move_assign "file2"%string "file"%string
                           [("file2"%string, 4); ("file"%string, 3)], two_open))))))
    = Some (mk_open_file demo_source 0).
Proof.
  pose proof (move_assign_never_closes_old_descriptor
                "file2"%string "file"%string 4 3
                [("file2"%string, 4); ("file"%string, 3)] two_open
                ltac:(discriminate) eq_refl eq_refl) as H.
  cbv zeta in H. destruct H as (_ & H2 & H3).
  split; [exact H2|]. exact (H3 ltac:(lia)).
Defined.


Lemma wrapper_lifetime_witness :
  lifetime FileWrapper.ctor FileWrapper.read_1024 FileWrapper.dtor
    (lit "main.cpp") demo_world =
  (demo_source,
   mk_world (os demo_world) []
     [SysOpen "main.cpp" 3; SysRead 3 1024 24; SysClose 3 0]).
Proof.
  exact (proj1 (wrapper_lifetime_restores_os (lit "main.cpp") demo_source
                  demo_world eq_refl)).
Defined.

Lemma sub_undoes_add_witness :
  BuildProcess.add 5 6 = 11 /\
  BuildProcess.sub (BuildProcess.add 5 6) 6 = 5 /\
  BuildProcess.add 6 5 = BuildProcess.add 5 6.
Proof.
  exact (sub_undoes_add 5 6
           ltac:(unfold is_int, INT_MIN, INT_MAX; lia)
           ltac:(unfold is_int, INT_MIN, INT_MAX; lia)
           ltac:(unfold is_int, INT_MIN, INT_MAX; lia)).
Defined.

(** ** More on the counting functions, the mutators and the watcher *)

Section SmartPointerUses.
Import Mem Mutation Interfaces.

Lemma starred_idem (d : ascii) (s : std_string) :
  starred d (starred d s) = starred d s.
Proof.
  unfold starred. rewrite map_map. apply map_ext. intros c.
  destruct (Ascii.eqb c d) eqn:E; [|rewrite E; reflexivity].
  destruct (Ascii.eqb "*" d); reflexivity.
Qed.

Lemma occurrences_starred (d : ascii) (s : std_string) :
  d <> "*"%char -> occurrences d (starred d s) = 0%nat.
Proof.
  intros Hd. induction s as [|c s IH]; [reflexivity|].
  unfold starred in *. cbn [map]. rewrite occurrences_cons, IH.
  destruct (Ascii.eqb c d) eqn:E.
  - replace (Ascii.eqb "*" d) with false; [reflexivity|].
    symmetry. apply Ascii.eqb_neq. congruence.
  - rewrite E. reflexivity.
Qed.

Lemma starred_fixed_iff (d : ascii) (s : std_string) :
  starred d s = s <-> d = "*"%char \/ occurrences d s = 0%nat.
Proof.
  induction s as [|c s IH].
  - split; [right; reflexivity | reflexivity].
  - unfold starred in *. cbn [map]. rewrite occurrences_cons.
    destruct (Ascii.eqb c d) eqn:E.
    + apply Ascii.eqb_eq in E. subst c. split.
      * intros H. injection H as H1 _. left. congruence.
      * intros [->|H]; [|discriminate]. f_equal. apply IH. left. reflexivity.
    + split.
      * intros H. injection H as H. apply IH in H. exact H.
      * intros H. f_equal. apply IH. exact H.
Qed.

(** X12. [count_bad] destroys what it counts: for a character other
    than the star, a second [count_bad] on the same pointer, and a
    [count_good] on the same string, return 0, and the second call changes
    nothing more. *)
Theorem count_bad_erases_what_it_counts
    (m : mem) (s : ptr) (str : std_string) (d : ascii) :
  nth_error (strings m) s = Some str ->
  d <> "*"%char ->
  (n1 <- count_bad s d ;; n2 <- count_bad s d ;; n3 <- count_good s d ;;
   ret (n1, n2, n3))%mem m =
  Some ((int_wrap (Z.of_nat (occurrences d str)), 0, 0),
        mk_mem (set_at s (starred d str) (strings m)) (configs m) (out m)).
Proof.
  intros Hs Hd.
  set (m' := mk_mem (set_at s (starred d str) (strings m)) (configs m) (out m)).
  assert (Hs' : nth_error (strings m') s = Some (starred d str)).
  { apply nth_error_set_at with (u := str). exact Hs. }
  unfold bind at 1. rewrite (count_bad_spec m s str d Hs). fold m'.
  unfold bind at 1. rewrite (count_bad_spec m' s _ d Hs').
  rewrite starred_idem, occurrences_starred by exact Hd.
  replace (mk_mem (set_at s (starred d str) (strings m')) (configs m') (out m'))
    with m'.
  - unfold bind. rewrite (count_good_spec m' s _ d Hs').
    rewrite occurrences_starred by exact Hd. reflexivity.
  - unfold m'. cbn [strings configs out]. rewrite set_at_twice. reflexivity.
Qed.

(** X13. [count_bad] leaves the memory as it was exactly when the
    character is the star itself or does not occur in the string. *)
Theorem count_bad_changes_memory_iff_found
    (m : mem) (s : ptr) (str : std_string) (d : ascii) :
  nth_error (strings m) s = Some str ->
  exists (n : Z) (m' : mem),
    count_bad s d m = Some (n, m') /\
    (m' = m <-> d = "*"%char \/ occurrences d str = 0%nat).
Proof.
  intros Hs. eexists. eexists. split; [apply count_bad_spec; exact Hs|].
  rewrite <- starred_fixed_iff. split.
  - intros H.
    assert (H' : nth_error (strings m) s = Some (starred d str)).
    { rewrite <- H at 1. cbn [strings].
      apply nth_error_set_at with (u := str). exact Hs. }
    congruence.
  - intros H. rewrite H. destruct m as [ss cs o]. cbn [strings configs out] in *.
    f_equal. apply set_at_same. exact Hs.
Qed.

Lemma nth_error_set_at_other {A : Type} (i j : nat) (v : A) (l : list A) :
  i <> j -> nth_error (set_at i v l) j = nth_error l j.
Proof.
  revert i j. induction l as [|x l IH]; intros [|i] [|j] H; simpl;
    try reflexivity; try congruence.
  apply IH. congruence.
Qed.

Lemma length_set_at {A : Type} (i : nat) (v : A) (l : list A) :
  length (set_at i v l) = length l.
Proof.
  revert i. induction l as [|x l IH]; intros [|i]; simpl;
    try reflexivity.
  f_equal. apply IH.
Qed.

Lemma nth_error_starred (d : ascii) (s : std_string) (i : nat) :
  nth_error (starred d s) i =
  option_map (fun c => if Ascii.eqb c d then "*"%char else c) (nth_error s i).
Proof. unfold starred. apply nth_error_map. Qed.

(** X14. [count_bad] writes to the string behind its pointer only: every
    other string, the [Config] objects and the output are unchanged, the
    string keeps its length, and each of its characters is the one it
    was, or a star where it was [d]. *)
Theorem count_bad_touches_only_matching_characters
    (m : mem) (s : ptr) (str : std_string) (d : ascii) :
  nth_error (strings m) s = Some str ->
  exists (n : Z) (m' : mem) (str' : std_string),
    count_bad s d m = Some (n, m') /\
    configs m' = configs m /\ out m' = out m /\
    length (strings m') = length (strings m) /\
    (forall p, p <> s -> nth_error (strings m') p = nth_error (strings m) p) /\
    nth_error (strings m') s = Some str' /\
    length str' = length str /\
    (forall i c, nth_error str i = Some c ->
       nth_error str' i = Some (if Ascii.eqb c d then "*"%char else c)).
Proof.
  intros Hs. exists (int_wrap (Z.of_nat (occurrences d str))).
  eexists. exists (starred d str).
  split; [apply count_bad_spec; exact Hs|]. cbn [strings configs out].
  repeat split.
  - apply length_set_at.
  - intros p Hp. apply nth_error_set_at_other. congruence.
  - apply nth_error_set_at with (u := str). exact Hs.
  - unfold starred. apply length_map.
  - intros i c Hi. rewrite nth_error_starred, Hi. reflexivity.
Qed.


Lemma update_config_step (watcher : ConfigWatcher) (m : mem) (c : Config) :
  nth_error (configs m) (config watcher) = Some c ->
  is_int (port c) -> port c < INT_MAX ->
  update_config watcher m =
  Some (tt, mk_mem (strings m)
              (set_at (config watcher)
                 (mk_config (hostname c) (port c + 1) (url c)) (configs m))
              (out m)).
Proof.
  intros Hc Hint Hmax.
  unfold update_config, bind, load_config, store_config. rewrite Hc.
  cbn [hostname port url]. rewrite Hc.
  rewrite int_wrap_small; [reflexivity|].
  unfold is_int, INT_MIN, INT_MAX in *. lia.
Qed.

Lemma times_update_config (watcher : ConfigWatcher) :
  forall (n : nat) (m : mem) (c : Config),
    nth_error (configs m) (config watcher) = Some c ->
    is_int (port c) ->
    port c + Z.of_nat n <= INT_MAX ->
    times n (update_config watcher) m =
    Some (tt, mk_mem (strings m)
                (set_at (config watcher)
                   (mk_config (hostname c) (port c + Z.of_nat n) (url c))
                   (configs m))
                (out m)).
Proof.
  induction n as [|n IH]; intros m c Hc Hint Hmax.
  - cbn [times]. unfold ret. rewrite Z.add_0_r.
    destruct m as [ss cs o], c as [h p u]. cbn [strings configs out hostname port url] in *.
    do 3 f_equal. symmetry. apply set_at_same. exact Hc.
  - cbn [times]. unfold bind.
    rewrite (update_config_step watcher m c Hc Hint) by lia.
    rewrite (IH _ (mk_config (hostname c) (port c + 1) (url c))).
    + cbn [strings configs out hostname port url]. rewrite set_at_twice.
      do 5 f_equal. lia.
    + cbn [configs]. apply nth_error_set_at with (u := c). exact Hc.
    + cbn [port]. unfold is_int, INT_MIN, INT_MAX in *. lia.
    + cbn [port]. lia.
Qed.

(** X16. [n] calls of [update_config] add [n] to the port, as long as
    the result does not exceed [INT_MAX], and keep the hostname and the
    url. *)
Theorem update_config_n_times_adds_n
    (watcher : ConfigWatcher) (n : nat) (m : mem) (c : Config) :
  nth_error (configs m) (config watcher) = Some c ->
  is_int (port c) ->
  port c + Z.of_nat n <= INT_MAX ->
  (times n (update_config watcher) ;;; load_config (config watcher))%mem m =
  Some (mk_config (hostname c) (port c + Z.of_nat n) (url c),
        mk_mem (strings m)
          (set_at (config watcher)
             (mk_config (hostname c) (port c + Z.of_nat n) (url c)) (configs m))
          (out m)).
Proof.
  intros Hc Hint Hmax. unfold bind at 1.
  rewrite (times_update_config watcher n m c Hc Hint Hmax).
  unfold load_config. cbn [configs].
  rewrite (nth_error_set_at _ c _ _ Hc). reflexivity.
Qed.

Lemma nth_error_mid_next {A : Type} (pre suf : list A) (a b : A) :
  nth_error (pre ++ a :: b :: suf) (S (length pre)) = Some b.
Proof. induction pre as [|x pre IH]; [reflexivity | exact IH]. Qed.

(** X17. Each [ConfigWatcher] makes a [Config] of its own with port
    80: two watchers constructed in any memory hold different addresses,
    the objects that existed stay as they were, and after
    [update_config] on the first the first reads port 81 and the second
    still port 80. *)
Theorem watchers_do_not_share_config (m : mem) :
  let fresh := mk_config (lit "localhost") 80 (lit "/index.html") in
  let n := length (configs m) in
  two_watchers m =
    Some ((mk_watcher n, mk_watcher (S n)),
          mk_mem (strings m) (configs m ++ [fresh; fresh]) (out m)) /\
  (ab <- two_watchers ;;
   update_config (fst ab) ;;;
   ca <- load_config (config (fst ab)) ;;
   cb <- load_config (config (snd ab)) ;;
   ret (port ca, port cb))%mem m =
    Some ((81, 80),
          mk_mem (strings m)
            (configs m ++ [mk_config (lit "localhost") 81 (lit "/index.html"); fresh])
            (out m)).
Proof.
  cbv zeta.
  set (fresh := mk_config (lit "localhost") 80 (lit "/index.html")).
  set (n := length (configs m)).
  set (m2 := mk_mem (strings m) (configs m ++ [fresh; fresh]) (out m)).
  assert (H2 : two_watchers m = Some ((mk_watcher n, mk_watcher (S n)), m2)).
  { unfold two_watchers, Interfaces.ctor, bind, make_shared_config, ret.
    cbn [strings configs out]. rewrite length_app. cbn [length].
    rewrite Nat.add_1_r, <- app_assoc. reflexivity. }
  split; [exact H2|].
  assert (Ha : nth_error (configs m2) (config (mk_watcher n)) = Some fresh)
    by apply nth_error_mid.
  unfold bind at 1. rewrite H2. cbn [fst snd].
  unfold bind at 1.
  rewrite (update_config_step (mk_watcher n) m2 fresh Ha);
    [| unfold is_int, INT_MIN, INT_MAX; cbn; lia | unfold INT_MAX; cbn; lia].
  cbn [config strings configs out m2]. unfold n. rewrite set_at_mid.
  unfold bind, load_config, ret. cbn [configs].
  rewrite nth_error_mid. cbn [configs]. rewrite nth_error_mid_next. reflexivity.
Qed.
Lemma count_bad_erases_witness :
  (n1 <- count_bad 0%nat "l"%char ;; n2 <- count_bad 0%nat "l"%char ;;
   n3 <- count_good 0%nat "l"%char ;; ret (n1, n2, n3))%mem hello_mem =
  Some ((3, 0, 0), mk_mem [lit "He**o shared wor*d!"] [] []).
Proof.
  exact (count_bad_erases_what_it_counts hello_mem 0%nat
           (lit "Hello shared world!") "l"%char eq_refl ltac:(discriminate)).
Defined.

Lemma count_bad_changes_memory_witness :
  exists (n : Z) (m' : mem),
    count_bad 0%nat "l"%char hello_mem = Some (n, m') /\
    (m' = hello_mem <->
     "l"%char = "*"%char \/ occurrences "l"%char (lit "Hello shared world!") = 0%nat).
Proof.
  exact (count_bad_changes_memory_iff_found hello_mem 0%nat
           (lit "Hello shared world!") "l"%char eq_refl).
Defined.

Lemma count_bad_touches_witness :
  exists (n : Z) (m' : mem) (str' : std_string),
    count_bad 0%nat "l"%char hello_mem = Some (n, m') /\
    configs m' = configs hello_mem /\ out m' = out hello_mem /\
    length (strings m') = length (strings hello_mem) /\
    (forall p, p <> 0%nat -> nth_error (strings m') p = nth_error (strings hello_mem) p) /\
    nth_error (strings m') 0%nat = Some str' /\
    length str' = length (lit "Hello shared world!") /\
    (forall i c, nth_error (lit "Hello shared world!") i = Some c ->
       nth_error str' i = Some (if Ascii.eqb c "l" then "*"%char else c)).
Proof.
  exact (count_bad_touches_only_matching_characters hello_mem 0%nat
           (lit "Hello shared world!") "l"%char eq_refl).
Defined.


Lemma update_config_thrice_witness :
  (times 3 (update_config (mk_watcher 0%nat)) ;;; load_config 0%nat)%mem
    (mk_mem [] [mk_config (lit "localhost") 80 (lit "/index.html")] []) =
  Some (mk_config (lit "localhost") 83 (lit "/index.html"),
        mk_mem [] [mk_config (lit "localhost") 83 (lit "/index.html")] []).
Proof.
  exact (update_config_n_times_adds_n (mk_watcher 0%nat) 3
           (mk_mem [] [mk_config (lit "localhost") 80 (lit "/index.html")] [])
           (mk_config (lit "localhost") 80 (lit "/index.html"))
           eq_refl
           ltac:(unfold is_int, INT_MIN, INT_MAX; cbn; lia)
           ltac:(unfold INT_MAX; cbn; lia)).
Defined.

End SmartPointerUses.
